(** * The URL analysis route of the knowledge workspace

    A shallow embedding of the [POST] handler of the analyze-url route
    (fetch, charset resolution, entity decoding, title and body extraction,
    optional summarisation, host-specific fallback) and of the client-side
    predicate [isValidUrl], followed by the properties of the written
    specification that were checked against them.

    The rest of the repository that can be modelled follows: the client
    library ([analyzeUrl], [isSlackUrl]), the address filter of the
    middleware, the title field of the note dialog and the workspace that
    keeps its projects in the browser, with properties read off their code.

    JavaScript strings are sequences of UTF-16 code units, modelled as
    [list N]; byte buffers are [list N] as well (values below 256).  The
    services of the platform the handler relies on ([URL], [fetch],
    [TextDecoder], [toLowerCase], the process environment) are the fields of
    a record [Runtime]; every theorem holds for all runtimes, and a small
    reference runtime is used to run the handler on concrete requests. *)

From Stdlib Require Import List NArith ZArith Bool Arith Lia.
From Stdlib Require Import Sorting.Permutation Sorting.Sorted.
From Stdlib Require Import Strings.Ascii.
From Stdlib Require Strings.String.
Import ListNotations.

Import String.StringSyntax.
Delimit Scope string_scope with string.
Local Open Scope N_scope.
Local Open Scope list_scope.

(* ================================================================= *)
(** ** Strings of UTF-16 code units *)

Definition jsstring := list N.
Definition bytes := list N.

Definition in_range (lo hi c : N) : bool := (lo <=? c) && (c <=? hi).

Fixpoint jsstring_eqb (a b : jsstring) : bool :=
  match a, b with
  | [], [] => true
  | x :: a', y :: b' => (x =? y) && jsstring_eqb a' b'
  | _, _ => false
  end.

Module Utf8.

(** The UTF-8 decoder of the Encoding standard.  [lead] classifies a byte
    read in the initial state. *)
Inductive step :=
| Emit (c : N)
| More (cp : N) (need : nat) (lo hi : N)
| Bad.

Definition lead (b : N) : step :=
  if b <=? 0x7F then Emit b
  else if in_range 0xC2 0xDF b then More (N.land b 0x1F) 1 0x80 0xBF
  else if in_range 0xE0 0xEF b then
    More (N.land b 0xF) 2 (if b =? 0xE0 then 0xA0 else 0x80)
         (if b =? 0xED then 0x9F else 0xBF)
  else if in_range 0xF0 0xF4 b then
    More (N.land b 0x7) 3 (if b =? 0xF0 then 0x90 else 0x80)
         (if b =? 0xF4 then 0x8F else 0xBF)
  else Bad.

Definition pending := option (N * nat * N * N).

(** [go fatal st bs]: the code points of [bs]; with [fatal] an invalid
    sequence makes the whole decode fail, without it each one is replaced
    by U+FFFD and the offending byte is read again in the initial state. *)
Fixpoint go (fatal : bool) (st : pending) (bs : bytes) : option (list N) :=
  match bs with
  | [] =>
      match st with
      | None => Some []
      | Some _ => if fatal then None else Some [0xFFFD]
      end
  | b :: bs' =>
      match st with
      | Some (cp, need, lo, hi) =>
          if in_range lo hi b then
            let cp' := N.lor (N.shiftl cp 6) (N.land b 0x3F) in
            match need with
            | S (S n) => go fatal (Some (cp', S n, 0x80, 0xBF)) bs'
            | _ => option_map (cons cp') (go fatal None bs')
            end
          else if fatal then None
          else
            match lead b with
            | Emit c => option_map (fun r => 0xFFFD :: c :: r) (go fatal None bs')
            | More cp0 n0 lo0 hi0 =>
                option_map (cons 0xFFFD) (go fatal (Some (cp0, n0, lo0, hi0)) bs')
            | Bad => option_map (fun r => 0xFFFD :: 0xFFFD :: r) (go fatal None bs')
            end
      | None =>
          match lead b with
          | Emit c => option_map (cons c) (go fatal None bs')
          | More cp0 n0 lo0 hi0 => go fatal (Some (cp0, n0, lo0, hi0)) bs'
          | Bad => if fatal then None
                   else option_map (cons 0xFFFD) (go fatal None bs')
          end
      end
  end.

(** A code point as one or two UTF-16 code units. *)
Definition units_of_cp (cp : N) : jsstring :=
  if cp <? 0x10000 then [cp]
  else let v := cp - 0x10000 in
       [0xD800 + N.shiftr v 10; 0xDC00 + N.land v 0x3FF].

Definition to_units (cps : list N) : jsstring := flat_map units_of_cp cps.

(** A decoder drops one leading byte order mark. *)
Definition strip_bom (s : jsstring) : jsstring :=
  match s with
  | 0xFEFF :: r => r
  | _ => s
  end.

Definition decode_fatal (bs : bytes) : option jsstring :=
  option_map (fun cps => strip_bom (to_units cps)) (go true None bs).

Definition decode_lossy (bs : bytes) : jsstring :=
  match go false None bs with
  | Some cps => strip_bom (to_units cps)
  | None => []
  end.

End Utf8.

Definition bytes_of_string (s : String.string) : bytes :=
  map N_of_ascii (String.list_ascii_of_string s).
Arguments bytes_of_string s%_string.

(** A string literal of the source, written here in UTF-8, as code units. *)
Definition js (s : String.string) : jsstring :=
  match Utf8.go true None (bytes_of_string s) with
  | Some cps => Utf8.to_units cps
  | None => []
  end.
Arguments js s%_string.

(** The one code unit of a one-character literal. *)
Definition ch (s : String.string) : N := hd 0 (js s).
Arguments ch s%_string.

(** U+FFFD, the replacement character the decoders' output is tested for. *)
Definition REPLACEMENT : N := 0xFFFD.

(* ----------------------------------------------------------------- *)
(** *** String methods used by the handler *)

Fixpoint startsWith (p s : jsstring) : bool :=
  match p, s with
  | [], _ => true
  | x :: p', y :: s' => (x =? y) && startsWith p' s'
  | _ :: _, [] => false
  end.

Fixpoint includes (sub s : jsstring) : bool :=
  startsWith sub s ||
  match s with
  | [] => false
  | _ :: s' => includes sub s'
  end.

(** Number of positions at which [sub] occurs in [s]. *)
Fixpoint occurrences (sub s : jsstring) : nat :=
  ((if startsWith sub s then 1 else 0) +
   match s with
   | [] => 0
   | _ :: s' => occurrences sub s'
   end)%nat.

Definition substring0 (n : nat) (s : jsstring) : jsstring := firstn n s.

(** [s.slice(1)] and [s.slice(2, -1)]. *)
Definition slice_from (n : nat) (s : jsstring) : jsstring := skipn n s.
Definition slice_2_m1 (s : jsstring) : jsstring :=
  firstn (length s - 3) (skipn 2 s).

(** White space and line terminators: the class [\s], also what [trim]
    removes. *)
Definition is_space (c : N) : bool :=
  in_range 0x09 0x0D c || (c =? 0x20) || (c =? 0xA0) || (c =? 0x1680) ||
  in_range 0x2000 0x200A c || (c =? 0x2028) || (c =? 0x2029) ||
  (c =? 0x202F) || (c =? 0x205F) || (c =? 0x3000) || (c =? 0xFEFF).

Fixpoint trimStart (s : jsstring) : jsstring :=
  match s with
  | c :: s' => if is_space c then trimStart s' else s
  | [] => []
  end.

Definition trimEnd (s : jsstring) : jsstring := rev (trimStart (rev s)).
Definition trim (s : jsstring) : jsstring := trimEnd (trimStart s).

(** [s.split(sep)] for a one-character separator. *)
Fixpoint split (sep : N) (s : jsstring) : list jsstring :=
  match s with
  | [] => [[]]
  | c :: s' =>
      if c =? sep then [] :: split sep s'
      else match split sep s' with
           | w :: ws => (c :: w) :: ws
           | [] => [[c]]
           end
  end.

(** [Boolean] applied to a string. *)
Definition truthy (s : jsstring) : bool :=
  match s with [] => false | _ => true end.

Fixpoint join (sep : jsstring) (l : list jsstring) : jsstring :=
  match l with
  | [] => []
  | [w] => w
  | w :: ws => w ++ sep ++ join sep ws
  end.

(** [arr.pop()] read as an expression: the last element, if any. *)
Definition pop (l : list jsstring) : option jsstring :=
  match rev l with
  | w :: _ => Some w
  | [] => None
  end.

(* ================================================================= *)
(** ** Regular expressions

    The patterns of the handler are sequences of single-character classes,
    optional or repeated (greedily or lazily), with at most one capturing
    group.  [run] is the backtracking matcher: it tries the alternatives in
    the order the language prescribes and returns the first success. *)

Module Regex.

Inductive atom :=
| One (p : N -> bool)        (* a character of the class *)
| Opt (p : N -> bool)        (* [p?] *)
| Star (p : N -> bool)       (* [p*], longest first *)
| StarLazy (p : N -> bool)   (* [p*?], shortest first *)
| GroupOpen
| GroupClose.

Definition pattern := list atom.

(** Offsets of the captured group, relative to the start of the match. *)
Definition capture := option (nat * nat).
Definition result := (nat * capture)%type.

Section Repeat.
Variable p : N -> bool.
Variable k : nat -> jsstring -> option result.

Fixpoint star (n : nat) (s : jsstring) : option result :=
  match s with
  | c :: s' =>
      if p c then
        match star (S n) s' with
        | Some r => Some r
        | None => k n s
        end
      else k n s
  | [] => k n []
  end.

Fixpoint star_lazy (n : nat) (s : jsstring) : option result :=
  match k n s with
  | Some r => Some r
  | None =>
      match s with
      | c :: s' => if p c then star_lazy (S n) s' else None
      | [] => None
      end
  end.
End Repeat.

(** [run pat n g cap s]: match [pat] against a prefix of [s]; [n]
    characters of the match were consumed before [s], the group was
    opened at offset [g]. *)
Fixpoint run (pat : pattern) (n g : nat) (cap : capture) (s : jsstring)
  : option result :=
  match pat with
  | [] => Some (n, cap)
  | One p :: pat' =>
      match s with
      | c :: s' => if p c then run pat' (S n) g cap s' else None
      | [] => None
      end
  | Opt p :: pat' =>
      match s with
      | c :: s' =>
          if p c then
            match run pat' (S n) g cap s' with
            | Some r => Some r
            | None => run pat' n g cap s
            end
          else run pat' n g cap s
      | [] => run pat' n g cap []
      end
  | Star p :: pat' => star p (fun n' s' => run pat' n' g cap s') n s
  | StarLazy p :: pat' => star_lazy p (fun n' s' => run pat' n' g cap s') n s
  | GroupOpen :: pat' => run pat' n n cap s
  | GroupClose :: pat' => run pat' n g (Some (g, n)) s
  end.

Definition exec_at (pat : pattern) (s : jsstring) : option result :=
  run pat 0 0 None s.

Definition match_len (pat : pattern) (s : jsstring) : option nat :=
  option_map fst (exec_at pat s).

(** [s.match(re)] without the [g] flag: the leftmost match and its
    group. *)
Fixpoint search (pat : pattern) (s : jsstring)
  : option (jsstring * option jsstring) :=
  match exec_at pat s with
  | Some (n, cap) =>
      Some (firstn n s,
            option_map (fun be => firstn (snd be - fst be) (skipn (fst be) s)) cap)
  | None =>
      match s with
      | [] => None
      | _ :: s' => search pat s'
      end
  end.

(** The first group of the leftmost match, [m[1]]. *)
Definition group1 (pat : pattern) (s : jsstring) : option jsstring :=
  match search pat s with
  | Some (_, Some g) => Some g
  | _ => None
  end.

(** [s.replace(re, f)] with the [g] flag.  [skip] counts the characters
    of [s] that still belong to the previous match. *)
Fixpoint replace_go (pat : pattern) (f : jsstring -> jsstring)
         (skip : nat) (s : jsstring) : jsstring :=
  match s with
  | [] =>
      match skip, match_len pat [] with
      | O, Some _ => f []
      | _, _ => []
      end
  | c :: s' =>
      match skip with
      | S k => replace_go pat f k s'
      | O =>
          match match_len pat s with
          | Some (S n) => f (firstn (S n) s) ++ replace_go pat f n s'
          | Some O => f [] ++ c :: replace_go pat f O s'
          | None => c :: replace_go pat f O s'
          end
      end
  end.

Definition replace_all (pat : pattern) (f : jsstring -> jsstring)
           (s : jsstring) : jsstring :=
  replace_go pat f 0 s.

(** *** Character classes *)

Definition lit (c : N) : N -> bool := fun x => x =? c.
Definition non (c : N) : N -> bool := fun x => negb (x =? c).

(** With the [i] flag characters are compared after upper-casing; for an
    ASCII pattern character only its two ASCII forms match. *)
Definition upcase (x : N) : N :=
  if in_range 0x61 0x7A x then x - 0x20 else x.
Definition is_ci (c : N) : N -> bool := fun x => upcase x =? upcase c.

Definition alnum (x : N) : bool :=
  in_range 0x61 0x7A x || in_range 0x41 0x5A x || in_range 0x30 0x39 x.

(** [.]: anything but a line terminator. *)
Definition dot (x : N) : bool :=
  negb ((x =? 0x0A) || (x =? 0x0D) || (x =? 0x2028) || (x =? 0x2029)).

(** [[\s\S]]. *)
Definition any (x : N) : bool := is_space x || negb (is_space x).

Definition text (s : String.string) : pattern := map (fun c => One (lit c)) (js s).
Definition text_ci (s : String.string) : pattern := map (fun c => One (is_ci c)) (js s).
Definition plus (p : N -> bool) : pattern := [One p; Star p].

End Regex.
Arguments Regex.text s%_string.
Arguments Regex.text_ci s%_string.

Import Regex.

(** The patterns of the handler, in the order they appear. *)

(** [/charset=([^;]+)/i] *)
Definition RE_CONTENT_TYPE_CHARSET : pattern :=
  text_ci "charset=" ++ [GroupOpen] ++ plus (non (ch ";")) ++ [GroupClose].

(** [/<meta[^>]+charset=["']?([^"'\s>]+)/i] *)
Definition meta_value (x : N) : bool :=
  negb ((x =? 0x22) || (x =? 0x27) || is_space x || (x =? ch ">")).
Definition RE_META_CHARSET : pattern :=
  text_ci "<meta" ++ plus (non (ch ">")) ++ text_ci "charset=" ++
  [Opt (fun x => (x =? 0x22) || (x =? 0x27)); GroupOpen] ++
  plus meta_value ++ [GroupClose].

(** [/&[#]?[a-zA-Z0-9]+;/g] *)
Definition RE_ENTITY : pattern :=
  [One (lit (ch "&")); Opt (lit (ch "#"))] ++ plus alnum ++ [One (lit (ch ";"))].

(** [/<title[^>]*>(.*?)<\/title>/i] *)
Definition RE_TITLE : pattern :=
  text_ci "<title" ++ [Star (non (ch ">"))] ++ text_ci ">" ++
  [GroupOpen; StarLazy dot; GroupClose] ++ text_ci "</title>".

(** [/<script[^>]*>[\s\S]*?<\/script>/gi] *)
Definition RE_SCRIPT : pattern :=
  text_ci "<script" ++ [Star (non (ch ">"))] ++ text_ci ">" ++
  [StarLazy any] ++ text_ci "</script>".

(** [/<style[^>]*>[\s\S]*?<\/style>/gi] *)
Definition RE_STYLE : pattern :=
  text_ci "<style" ++ [Star (non (ch ">"))] ++ text_ci ">" ++
  [StarLazy any] ++ text_ci "</style>".

(** [/<[^>]+>/g] *)
Definition RE_TAG : pattern :=
  text "<" ++ plus (non (ch ">")) ++ text ">".

(** [/\s+/g] *)
Definition RE_SPACES : pattern := plus is_space.

(* ================================================================= *)
(** ** Numbers: [parseInt] and [String.fromCharCode] *)

Inductive number :=
| NaN
| Infinite
| Fin (z : Z).

(** The double nearest to a natural number (ties to even); integers below
    2^53 are exact. *)
Definition round_double (n : N) : number :=
  if n <? 2 ^ 53 then Fin (Z.of_N n)
  else
    let e := N.log2 n - 52 in
    let q := N.shiftr n e in
    let r := n - N.shiftl q e in
    let half := N.shiftl 1 (e - 1) in
    let q' := if half <? r then q + 1
              else if r =? half then (if N.even q then q else q + 1)
              else q in
    let v := N.shiftl q' e in
    if 2 ^ 1024 <=? v then Infinite else Fin (Z.of_N v).

Definition digit_value (radix : N) (c : N) : option N :=
  let d := if in_range 0x30 0x39 c then Some (c - 0x30)
           else if in_range 0x61 0x7A c then Some (c - 0x61 + 10)
           else if in_range 0x41 0x5A c then Some (c - 0x41 + 10)
           else None in
  match d with
  | Some v => if v <? radix then Some v else None
  | None => None
  end.

(** The value of the longest prefix of digits; [None] when it is empty. *)
Fixpoint digits_prefix (radix : N) (acc : option N) (s : jsstring) : option N :=
  match s with
  | c :: s' =>
      match digit_value radix c with
      | Some d =>
          digits_prefix radix
            (Some (match acc with Some a => a * radix + d | None => d end)) s'
      | None => acc
      end
  | [] => acc
  end.

(** [parseInt(s, radix)] for radix 10 or 16: leading white space and a sign
    are skipped, with radix 16 also a [0x] or [0X] prefix; no digit gives
    [NaN]. *)
Definition parseInt (s : jsstring) (radix : N) : number :=
  let s1 := trimStart s in
  let (neg, s2) :=
    match s1 with
    | c :: r => if c =? ch "-" then (true, r)
                else if c =? ch "+" then (false, r)
                else (false, s1)
    | [] => (false, s1)
    end in
  let s3 :=
    if radix =? 16 then
      match s2 with
      | z :: x :: r =>
          if (z =? ch "0") && ((x =? ch "x") || (x =? ch "X")) then r else s2
      | _ => s2
      end
    else s2 in
  match digits_prefix radix None s3 with
  | None => NaN
  | Some n =>
      match round_double n with
      | Fin z => Fin (if neg then (- z)%Z else z)
      | other => other
      end
  end.

(** [String.fromCharCode(x)]: the code unit [x] modulo 2^16; [NaN] and the
    infinities give the code unit 0. *)
Definition fromCharCode (x : number) : jsstring :=
  match x with
  | Fin z => [Z.to_N (z mod 65536)%Z]
  | _ => [0]
  end.

(* ================================================================= *)
(** ** [decodeHtmlEntities] *)

Definition entityMap : list (jsstring * jsstring) :=
  [ (js "&amp;", js "&");
    (js "&lt;", js "<");
    (js "&gt;", js ">");
    (js "&quot;", [0x22]);
    (js "&#39;", js "'");
    (js "&apos;", js "'");
    (js "&nbsp;", js " ") ].

Fixpoint lookup (m : list (jsstring * jsstring)) (key : jsstring) : option jsstring :=
  match m with
  | [] => None
  | (k, v) :: m' => if jsstring_eqb k key then Some v else lookup m' key
  end.

(** The replacement callback. *)
Definition replaceEntity (entity : jsstring) : jsstring :=
  match lookup entityMap entity with
  | Some v => v
  | None =>
      if startsWith (js "&#") entity then
        let num := slice_2_m1 entity in
        if startsWith (js "x") num
        then fromCharCode (parseInt (slice_from 1 num) 16)
        else fromCharCode (parseInt num 10)
      else entity
  end.

Definition decodeHtmlEntities (text : jsstring) : jsstring :=
  replace_all RE_ENTITY replaceEntity text.

(* ================================================================= *)
(** ** The platform *)

(** The parts of a parsed [URL] the code reads. *)
Record URL := {
  protocol : jsstring;
  hostname : jsstring;
  pathname : jsstring
}.

(** A page response: [ok] is derived from the status; the [content-type]
    header may be absent; reading the body may fail. *)
Record Response := {
  status : N;
  contentTypeHeader : option jsstring;
  arrayBuffer : option bytes
}.

Definition ok (st : N) : bool := in_range 200 299 st.

(** The response of the completion service: its status and the text of
    [choices[0].message.content], [None] when reading it throws. *)
Record ProviderResponse := {
  providerStatus : N;
  firstChoice : option jsstring
}.

Record Runtime := {
  (** [new URL(s)]; [None] when the constructor throws. *)
  parseURL : jsstring -> option URL;
  (** [fetch(url, { headers })]; [None] when the promise rejects. *)
  fetchPage : jsstring -> option Response;
  (** [new TextDecoder(label, { fatal: true }).decode(buffer)]; [None] when
      the label is unknown or the bytes are invalid for it. *)
  decodeFatal : jsstring -> bytes -> option jsstring;
  (** [new TextDecoder('utf-8', { fatal: false }).decode(buffer)]. *)
  decodeUtf8Lossy : bytes -> jsstring;
  toLowerCase : jsstring -> jsstring;
  (** [process.env.OPENAI_API_KEY]. *)
  OPENAI_API_KEY : option jsstring;
  (** The completion request, by key and user message; [None] when the
      promise rejects. *)
  fetchProvider : jsstring -> jsstring -> option ProviderResponse
}.

(* ----------------------------------------------------------------- *)
(** *** Computations that call the network and may throw *)

Inductive Call :=
| PageRequest (url : jsstring)
| ProviderRequest (key message : jsstring).

(** A computation maps the calls issued so far to an outcome ([None]: an
    exception was thrown) and the calls issued up to then. *)
Definition M (A : Type) : Type := list Call -> option A * list Call.

Definition ret {A} (a : A) : M A := fun log => (Some a, log).
Definition throw {A} : M A := fun log => (None, log).

Definition bind {A B} (m : M A) (k : A -> M B) : M B :=
  fun log =>
    match m log with
    | (Some a, log') => k a log'
    | (None, log') => (None, log')
    end.

(** [try { m } catch { h }] *)
Definition try_catch {A} (m : M A) (h : M A) : M A :=
  fun log =>
    match m log with
    | (Some a, log') => (Some a, log')
    | (None, log') => h log'
    end.

(** An operation of the platform that may throw, without network access. *)
Definition lift {A} (o : option A) : M A :=
  match o with
  | Some a => ret a
  | None => throw
  end.

Notation "x <- m ;; k" := (bind m (fun x => k))
  (at level 61, m at next level, right associativity).

Definition fetch (rt : Runtime) (url : jsstring) : M Response :=
  fun log => (fetchPage rt url, log ++ [PageRequest url]).

Definition fetchCompletion (rt : Runtime) (key message : jsstring)
  : M ProviderResponse :=
  fun log => (fetchProvider rt key message, log ++ [ProviderRequest key message]).

(* ================================================================= *)
(** ** Charset resolution *)

Section Charset.
Variable rt : Runtime.

(** A strict decode whose text has no replacement character. *)
Definition clean (t : jsstring) : bool := negb (includes [REPLACEMENT] t).

Definition CHARSETS : list jsstring :=
  [js "utf-8"; js "shift_jis"; js "euc-jp"; js "iso-2022-jp"].

(** The loop of [tryDecodeWithCharsets] over the remaining candidates. *)
Fixpoint tryCandidates (charsets : list jsstring) (buffer : bytes)
  : option jsstring :=
  match charsets with
  | [] => None
  | charset :: rest =>
      match decodeFatal rt charset buffer with
      | Some decoded =>
          if clean decoded then Some decoded else tryCandidates rest buffer
      | None => tryCandidates rest buffer
      end
  end.

Definition tryDecodeWithCharsets (buffer : bytes) : jsstring :=
  match tryCandidates CHARSETS buffer with
  | Some decoded => decoded
  | None => decodeUtf8Lossy rt buffer
  end.

(** [contentType.match(/charset=([^;]+)/i)], trimmed; an empty value
    counts as no declaration in the test [if (detectedCharset)]. *)
Definition detectedCharset (contentType : jsstring) : option jsstring :=
  match group1 RE_CONTENT_TYPE_CHARSET contentType with
  | Some v => if truthy (trim v) then Some (trim v) else None
  | None => None
  end.

(** The lower-cased charset of the first [<meta ... charset=...>]. *)
Definition metaCharset (html : jsstring) : option jsstring :=
  option_map (toLowerCase rt) (group1 RE_META_CHARSET html).

(** The check of the [meta] tag, made on the text [html] of the candidate
    trial. *)
Definition metaRedecode (html : jsstring) (buffer : bytes) : jsstring :=
  match metaCharset html with
  | Some m =>
      if negb (jsstring_eqb m (js "utf-8")) && clean html then
        match decodeFatal rt m buffer with
        | Some reDecoded => if clean reDecoded then reDecoded else html
        | None => html
        end
      else html
  | None => html
  end.

(** Whether a strict decode under [charset] succeeds without a
    replacement character. *)
Definition decodesCleanly (charset : jsstring) (buffer : bytes) : bool :=
  match decodeFatal rt charset buffer with
  | Some decoded => clean decoded
  | None => false
  end.

(** The text [html] the handler goes on with. *)
Definition resolveCharset (contentType : jsstring) (buffer : bytes) : jsstring :=
  match detectedCharset contentType with
  | Some charset =>
      match decodeFatal rt charset buffer with
      | Some html => html
      | None => tryDecodeWithCharsets buffer
      end
  | None => metaRedecode (tryDecodeWithCharsets buffer) buffer
  end.

End Charset.

(* ================================================================= *)
(** ** Title and body *)

Definition NL : jsstring := [0x0A].

Definition MAX_BODY : nat := 3000.
Definition MAX_EXCERPT : nat := 500.

Definition extractTitle (html hostname : jsstring) : jsstring :=
  let rawTitle :=
    match group1 RE_TITLE html with
    | Some t => trim t
    | None => hostname
    end in
  decodeHtmlEntities rawTitle.

(** The text left once scripts, styles and tags are removed and white
    space is collapsed, before it is cut. *)
Definition visibleText (html : jsstring) : jsstring :=
  trim
    (replace_all RE_SPACES (fun _ => js " ")
       (replace_all RE_TAG (fun _ => js " ")
          (replace_all RE_STYLE (fun _ => [])
             (replace_all RE_SCRIPT (fun _ => []) html)))).

Definition rawBodyText (html : jsstring) : jsstring :=
  substring0 MAX_BODY (visibleText html).

Definition extractBody (html : jsstring) : jsstring :=
  decodeHtmlEntities (rawBodyText html).

(* ================================================================= *)
(** ** The handler *)

(** What [request.json()] and the destructuring give: the body is not a
    JSON object ([BadBody]), or the value of its [url] member; [Body None]
    stands for a missing member and for the values that are false without
    being strings ([null], [0], [false]).  Any other value reaches
    [new URL], [fetch] and the templates as its string form, which is what
    [Body (Some url)] holds; the empty string is false as well.  Messages
    written to the console are left out. *)
Inductive RequestBody :=
| BadBody
| Body (url : option jsstring).

Inductive Reply :=
| ErrorReply (error : jsstring) (code : N)
| Note (title content : jsstring).

Definition requestUrl (b : RequestBody) : M (option jsstring) :=
  match b with
  | BadBody => throw
  | Body u => ret u
  end.

Definition summaryContent (pageTitle url summary : jsstring) : jsstring :=
  js "# " ++ pageTitle ++ NL ++ NL ++ js "URL: " ++ url ++ NL ++ NL ++
  js "## AI要約" ++ NL ++ NL ++ summary ++ NL ++ NL ++
  js "[元のページを開く](" ++ url ++ js ")".

Definition excerptContent (pageTitle url bodyText : jsstring) : jsstring :=
  js "# " ++ pageTitle ++ NL ++ NL ++ js "URL: " ++ url ++ NL ++ NL ++
  js "## 概要" ++ NL ++ NL ++ substring0 MAX_EXCERPT bodyText ++ js "..." ++
  NL ++ NL ++ js "[元のページを開く](" ++ url ++ js ")".

Definition providerMessage (pageTitle url bodyText : jsstring) : jsstring :=
  js "以下のWebページを要約してください：" ++ NL ++ NL ++
  js "タイトル: " ++ pageTitle ++ NL ++ js "URL: " ++ url ++ NL ++ NL ++
  js "内容:" ++ NL ++ bodyText.

Definition pathParts (path : jsstring) : list jsstring :=
  filter truthy (split (ch "/") path).

Definition slackNote (url path : jsstring) : Reply :=
  Note (js "Slack - " ++
        match pop (pathParts path) with
        | Some last => last
        | None => js "メッセージ"
        end)
       (js "# Slack リンク" ++ NL ++ NL ++ js "URL: " ++ url ++ NL ++ NL ++
        js "## 注意" ++ NL ++
        js "Slackのコンテンツはプライベートなため、直接アクセスして内容を確認してください。" ++
        NL ++ NL ++ js "[Slackで開く](" ++ url ++ js ")").

Definition githubNote (url : jsstring) (parts : list jsstring) : Reply :=
  Note (js "GitHub - " ++ join (js "/") parts)
       (js "# GitHub リンク" ++ NL ++ NL ++ js "URL: " ++ url ++ NL ++ NL ++
        js "リポジトリ: " ++ nth 0 parts [] ++ js "/" ++ nth 1 parts [] ++
        NL ++ NL ++ js "[GitHubで開く](" ++ url ++ js ")").

Definition defaultNote (url host : jsstring) : Reply :=
  Note host
       (js "# " ++ host ++ NL ++ NL ++ js "URL: " ++ url ++ NL ++ NL ++
        js "## 内容" ++ NL ++
        js "このURLの詳細な内容を取得できませんでした。直接アクセスしてください。" ++
        NL ++ NL ++ js "[リンクを開く](" ++ url ++ js ")").

(** The body of the inner [catch]. *)
Definition fallbackNote (url host path : jsstring) : Reply :=
  if includes (js "slack.com") host then slackNote url path
  else
    let parts := pathParts path in
    if includes (js "github.com") host && (2 <=? length parts)%nat
    then githubNote url parts
    else defaultNote url host.

(** [response.headers.get('content-type') || ''] *)
Definition contentTypeOf (response : Response) : jsstring :=
  match contentTypeHeader response with
  | Some v => if truthy v then v else []
  | None => []
  end.

Section Handler.
Variable rt : Runtime.

(** The summarisation step and the two success replies. *)
Definition summarize (url pageTitle bodyText : jsstring) : M Reply :=
  let excerpt := Note pageTitle (excerptContent pageTitle url bodyText) in
  match OPENAI_API_KEY rt with
  | Some key =>
      if truthy key then
        openaiResponse <- fetchCompletion rt key
                            (providerMessage pageTitle url bodyText) ;;
        if ok (providerStatus openaiResponse) then
          summary <- lift (firstChoice openaiResponse) ;;
          ret (Note pageTitle (summaryContent pageTitle url summary))
        else ret excerpt
      else ret excerpt
  | None => ret excerpt
  end.

(** The inner [try] block. *)
Definition analyze (url host : jsstring) : M Reply :=
  response <- fetch rt url ;;
  if negb (ok (status response)) then throw
  else
    let contentType := contentTypeOf response in
    buffer <- lift (arrayBuffer response) ;;
    let html := resolveCharset rt contentType buffer in
    let pageTitle := extractTitle html host in
    let bodyText := extractBody html in
    summarize url pageTitle bodyText.

Definition POST (request : RequestBody) : M Reply :=
  try_catch
    (u <- requestUrl request ;;
     match u with
     | None => ret (ErrorReply (js "URLが指定されていません") 400)
     | Some url =>
         if negb (truthy url)
         then ret (ErrorReply (js "URLが指定されていません") 400)
         else
           match parseURL rt url with
           | None => ret (ErrorReply (js "無効なURLです") 400)
           | Some urlObj =>
               try_catch
                 (analyze url (hostname urlObj))
                 (ret (fallbackNote url (hostname urlObj) (pathname urlObj)))
           end
     end)
    (ret (ErrorReply (js "URL解析中にエラーが発生しました") 500)).

(** Running a request from an empty log of calls. *)
Definition run_POST (request : RequestBody) : option Reply * list Call :=
  POST request [].

(** No credential in the environment: the variable is unset or empty. *)
Definition no_credential : Prop :=
  match OPENAI_API_KEY rt with
  | Some key => truthy key = false
  | None => True
  end.

(** The page cannot be fetched: the request is rejected or answered with a
    status outside 200-299. *)
Definition fetch_fails (url : jsstring) : Prop :=
  match fetchPage rt url with
  | Some response => ok (status response) = false
  | None => True
  end.

(** [isValidUrl] of the client library. *)
Definition isValidUrl (text : jsstring) : bool :=
  match parseURL rt (trim text) with
  | Some url =>
      jsstring_eqb (protocol url) (js "http:") ||
      jsstring_eqb (protocol url) (js "https:")
  | None => false
  end.

End Handler.

(* ================================================================= *)
(** ** A reference runtime

    An executable platform for running the handler on concrete requests.
    It follows the URL and Encoding standards on the inputs it covers:
    URLs of the form [scheme://host/path] over the special schemes, UTF-8
    and UTF-16LE in full, and the Japanese encodings without the kanji rows
    of their index.  An input outside this range is reported as a failure,
    which the real platform does not always do; the examples below stay
    inside the range. *)

Module Reference.

Definition lower (x : N) : N := if in_range 0x41 0x5A x then x + 0x20 else x.
Definition asciiLower (s : jsstring) : jsstring := map lower s.

(** *** URL *)

Definition is_alpha (x : N) : bool := in_range 0x61 0x7A x || in_range 0x41 0x5A x.
Definition scheme_char (x : N) : bool :=
  alnum x || (x =? ch "+") || (x =? ch "-") || (x =? ch ".").
Definition host_char (x : N) : bool := alnum x || (x =? ch ".").

(** A host made of non-empty labels, the last one starting with a letter
    (so that it is not read as an IPv4 address). *)
Definition plain_host (host : jsstring) : bool :=
  forallb truthy (split (ch ".") host) &&
  match rev (split (ch ".") host) with
  | (c :: _) :: _ => is_alpha c
  | _ => false
  end.
Definition path_char (x : N) : bool :=
  alnum x || (x =? ch "/") || (x =? ch "-") || (x =? ch "_") ||
  (x =? ch ".") || (x =? ch "~").

Fixpoint span (p : N -> bool) (s : jsstring) : jsstring * jsstring :=
  match s with
  | c :: s' => if p c then let (a, b) := span p s' in (c :: a, b) else ([], s)
  | [] => ([], [])
  end.

Definition special : list jsstring :=
  [js "http"; js "https"; js "ftp"; js "ws"; js "wss"].

Definition dot_segment (w : jsstring) : bool :=
  jsstring_eqb w (js ".") || jsstring_eqb w (js "..").

Definition parse (s : jsstring) : option URL :=
  match s with
  | c :: _ =>
      if is_alpha c then
        let (scheme, r1) := span scheme_char s in
        let scheme := asciiLower scheme in
        if existsb (jsstring_eqb scheme) special && startsWith (js "://") r1 then
          let (host, path) := span host_char (skipn 3 r1) in
          if plain_host host && forallb path_char path &&
             implb (truthy path) (startsWith (js "/") path) &&
             negb (existsb dot_segment (split (ch "/") path))
          then Some {| protocol := scheme ++ js ":";
                       hostname := asciiLower host;
                       pathname := if truthy path then path else js "/" |}
          else None
        else None
      else None
  | [] => None
  end.

(** *** Decoders *)

(** UTF-16LE: code units from byte pairs; a lone surrogate or a trailing
    byte is an error. *)
Fixpoint units16 (bs : bytes) : option jsstring :=
  match bs with
  | [] => Some []
  | lo :: hi :: r => option_map (cons (hi * 256 + lo)) (units16 r)
  | [_] => None
  end.

Fixpoint well_paired (s : jsstring) : bool :=
  match s with
  | [] => true
  | c :: r =>
      if in_range 0xD800 0xDBFF c then
        match r with
        | d :: r' => in_range 0xDC00 0xDFFF d && well_paired r'
        | [] => false
        end
      else negb (in_range 0xDC00 0xDFFF c) && well_paired r
  end.

Definition utf16le (bs : bytes) : option jsstring :=
  match units16 bs with
  | Some s => if well_paired s then Some (Utf8.strip_bom s) else None
  | None => None
  end.

(** The part of the JIS X 0208 index kept here: the ideographic space,
    full-width digits and letters, hiragana and katakana. *)
Definition jis0208 (pointer : N) : option N :=
  if pointer =? 0 then Some 0x3000
  else if in_range 203 212 pointer then Some (0xFF10 + (pointer - 203))
  else if in_range 220 245 pointer then Some (0xFF21 + (pointer - 220))
  else if in_range 252 277 pointer then Some (0xFF41 + (pointer - 252))
  else if in_range 282 364 pointer then Some (0x3041 + (pointer - 282))
  else if in_range 376 461 pointer then Some (0x30A1 + (pointer - 376))
  else None.

Fixpoint shift_jis (lead : N) (bs : bytes) : option jsstring :=
  match bs with
  | [] => if lead =? 0 then Some [] else None
  | b :: r =>
      if lead =? 0 then
        if b <=? 0x80 then option_map (cons b) (shift_jis 0 r)
        else if in_range 0xA1 0xDF b
        then option_map (cons (0xFF61 - 0xA1 + b)) (shift_jis 0 r)
        else if in_range 0x81 0x9F b || in_range 0xE0 0xFC b
        then shift_jis b r
        else None
      else
        let offset := if b <? 0x7F then 0x40 else 0x41 in
        let lead_offset := if lead <? 0xA0 then 0x81 else 0xC1 in
        if in_range 0x40 0x7E b || in_range 0x80 0xFC b then
          let pointer := (lead - lead_offset) * 188 + b - offset in
          if in_range 8836 10715 pointer
          then option_map (cons (0xE000 - 8836 + pointer)) (shift_jis 0 r)
          else match jis0208 pointer with
               | Some cp => option_map (cons cp) (shift_jis 0 r)
               | None => None
               end
        else None
  end.

Fixpoint euc_jp (lead : N) (bs : bytes) : option jsstring :=
  match bs with
  | [] => if lead =? 0 then Some [] else None
  | b :: r =>
      if lead =? 0 then
        if b <=? 0x7F then option_map (cons b) (euc_jp 0 r)
        else if (b =? 0x8E) || in_range 0xA1 0xFE b then euc_jp b r
        else None
      else if lead =? 0x8E then
        if in_range 0xA1 0xDF b
        then option_map (cons (0xFF61 - 0xA1 + b)) (euc_jp 0 r)
        else None
      else if in_range 0xA1 0xFE b then
        match jis0208 ((lead - 0xA1) * 94 + b - 0xA1) with
        | Some cp => option_map (cons cp) (euc_jp 0 r)
        | None => None
        end
      else None
  end.

(** ISO-2022-JP as long as the text stays in its ASCII state. *)
Definition iso_2022_jp (bs : bytes) : option jsstring :=
  if forallb (fun b => (b <=? 0x7F) &&
                       negb ((b =? 0x0E) || (b =? 0x0F) || (b =? 0x1B))) bs
  then Some bs else None.

Definition labels : list (jsstring * (bytes -> option jsstring)) :=
  [ (js "utf-8", Utf8.decode_fatal);
    (js "utf8", Utf8.decode_fatal);
    (js "shift_jis", shift_jis 0);
    (js "sjis", shift_jis 0);
    (js "euc-jp", euc_jp 0);
    (js "iso-2022-jp", iso_2022_jp);
    (js "utf-16le", utf16le);
    (js "utf-16", utf16le) ].

Fixpoint decoder_of (table : list (jsstring * (bytes -> option jsstring)))
         (label : jsstring) : option (bytes -> option jsstring) :=
  match table with
  | [] => None
  | (l, d) :: rest => if jsstring_eqb l label then Some d else decoder_of rest label
  end.

(** Labels are matched without regard to case or surrounding ASCII white
    space. *)
Definition ascii_space (x : N) : bool :=
  (x =? 0x09) || (x =? 0x0A) || (x =? 0x0C) || (x =? 0x0D) || (x =? 0x20).
Definition trim_label (s : jsstring) : jsstring :=
  rev (snd (span ascii_space (rev (snd (span ascii_space s))))).

Definition decode (label : jsstring) (buffer : bytes) : option jsstring :=
  match decoder_of labels (asciiLower (trim_label label)) with
  | Some d => d buffer
  | None => None
  end.

Definition runtime (web : jsstring -> option Response)
           (key : option jsstring)
           (provider : jsstring -> jsstring -> option ProviderResponse)
  : Runtime :=
  {| parseURL := parse;
     fetchPage := web;
     decodeFatal := decode;
     decodeUtf8Lossy := Utf8.decode_lossy;
     toLowerCase := asciiLower;
     OPENAI_API_KEY := key;
     fetchProvider := provider |}.

(** A page served as bytes with a given [content-type]. *)
Definition page (contentType : option jsstring) (body : bytes) : Response :=
  {| status := 200; contentTypeHeader := contentType; arrayBuffer := Some body |}.

(** A web of one page; every other request is rejected. *)
Definition serve (url : jsstring) (r : Response) : jsstring -> option Response :=
  fun u => if jsstring_eqb u url then Some r else None.

Definition offline : jsstring -> option Response := fun _ => None.
Definition no_provider : jsstring -> jsstring -> option ProviderResponse :=
  fun _ _ => None.

End Reference.

(* ================================================================= *)
(** ** Concrete requests *)

Module Scenario.
Import Reference.

(** No page can be fetched, no credential. *)
Definition rt_offline : Runtime := runtime offline None no_provider.

Definition ftp_url : jsstring := js "ftp://example.com/file".
Definition bad_input : jsstring := js "not a url".

(** A page that declares a charset in a [meta] tag, followed by the two
    bytes C3 A9. *)
Definition meta_page : bytes :=
  bytes_of_string "<meta charset=shift_jis>" ++ [0xC3; 0xA9].
Definition meta_text_utf8 : jsstring := js "<meta charset=shift_jis>é".
Definition meta_text_sjis : jsstring := js "<meta charset=shift_jis>ﾃｩ".

(** The code unit FFFD in UTF-16LE. *)
Definition fffd_le : bytes := [0xFD; 0xFF].

Definition hello_page : bytes :=
  bytes_of_string
    "<html><head><title>Hello</title></head><body>World</body></html>".
Definition hello_html : jsstring :=
  js "<html><head><title>Hello</title></head><body>World</body></html>".
Definition hello_url : jsstring := js "https://example.com/page".

(** The page is served; without and with a credential whose completion
    request is rejected. *)
Definition rt_hello : Runtime :=
  runtime (serve hello_url (page (Some (js "text/html")) hello_page))
          None no_provider.
Definition rt_provider_down : Runtime :=
  runtime (serve hello_url (page (Some (js "text/html")) hello_page))
          (Some (js "sk-test")) no_provider.

Definition github_url : jsstring := js "https://github.com/owner/repo".
Definition both_markers_url : jsstring :=
  js "https://github.com.slack.com/owner/repo".
End Scenario.

(* ================================================================= *)
(** ** Encoded texts

    The written specification speaks of a literal text whose characters
    are encoded as entities.  [piece] lists the ways one character can be
    written: as itself, by one of the names of the table, or by a decimal
    or hexadecimal character reference; [render] is the encoded text and
    [literal] the text it stands for. *)

Definition is_digit (c : N) : bool := in_range 0x30 0x39 c.
Definition is_hex (c : N) : bool :=
  is_digit c || in_range 0x61 0x66 c || in_range 0x41 0x46 c.

Definition dec_digit (c : N) : N := c - 0x30.
Definition hex_digit (c : N) : N :=
  if is_digit c then c - 0x30
  else if in_range 0x61 0x66 c then c - 0x61 + 10
  else c - 0x41 + 10.

(** The number a string of digits denotes. *)
Definition number_of (radix : N) (digit : N -> N) (ds : jsstring) : N :=
  fold_left (fun a c => a * radix + digit c) ds 0.

Inductive piece :=
| Plain (c : N)
| Named (name value : jsstring)
| Decimal (digits : jsstring)
| Hexadecimal (digits : jsstring).

Definition render (p : piece) : jsstring :=
  match p with
  | Plain c => [c]
  | Named name _ => name
  | Decimal ds => js "&#" ++ ds ++ js ";"
  | Hexadecimal hs => js "&#x" ++ hs ++ js ";"
  end.

Definition literal (p : piece) : jsstring :=
  match p with
  | Plain c => [c]
  | Named _ value => value
  | Decimal ds => [number_of 10 dec_digit ds]
  | Hexadecimal hs => [number_of 16 hex_digit hs]
  end.

(** A plain character is not an ampersand, a name is a key of the table
    with its value, and a reference has at least one digit and denotes a
    code unit, that is a number below 2^16. *)
Definition well_formed (p : piece) : Prop :=
  match p with
  | Plain c => c <> ch "&"
  | Named name value => In (name, value) entityMap
  | Decimal ds =>
      ds <> [] /\ forallb is_digit ds = true /\ number_of 10 dec_digit ds < 65536
  | Hexadecimal hs =>
      hs <> [] /\ forallb is_hex hs = true /\ number_of 16 hex_digit hs < 65536
  end.

(* ================================================================= *)
(** ** The client library

    [isSlackUrl] and [analyzeUrl] of the client library, next to
    [isValidUrl] above. *)

(** [isSlackUrl] *)
Definition isSlackUrl (rt : Runtime) (url : jsstring) : bool :=
  match parseURL rt url with
  | Some urlObj => includes (js "slack.com") (hostname urlObj)
  | None => false
  end.

(** No character of [w] is the separator. *)
Definition free_of_sep (sep : N) (w : jsstring) : bool :=
  forallb (fun c => negb (c =? sep)) w.

(** The first character of [s], if any, is not white space. *)
Definition head_kept (s : jsstring) : Prop :=
  match s with
  | c :: _ => is_space c = false
  | [] => True
  end.


(* ================================================================= *)
(** ** The middleware

    The address filter that runs before every route.  [Access] is what
    the middleware reads of a request: its headers and the address the
    platform attached to it; [Env] the two environment variables.  The 403
    response is kept as the members of its JSON body; messages written to
    the console are left out. *)

Record Access := {
  header : jsstring -> option jsstring;   (* [request.headers.get(name)] *)
  ip : option jsstring                    (* [request.ip] *)
}.

Record Env := {
  ENV_ALLOWED_IPS : option jsstring;      (* [process.env.ALLOWED_IPS] *)
  NODE_ENV : option jsstring              (* [process.env.NODE_ENV] *)
}.

Inductive Verdict :=
| Next
| Denied (ip : jsstring) (allowedIPs : option (list jsstring)).

(** [a || b] on strings that may be missing. *)
Definition or_else (a : option jsstring) (b : jsstring) : jsstring :=
  match a with
  | Some v => if truthy v then v else b
  | None => b
  end.

(** [s.split(',')[0]?.trim()] *)
Definition firstField (s : jsstring) : jsstring :=
  trim (hd [] (split (ch ",") s)).

(** [list.includes(x)] *)
Definition listIncludes (l : list jsstring) (x : jsstring) : bool :=
  existsb (jsstring_eqb x) l.

(** [process.env.ALLOWED_IPS ? process.env.ALLOWED_IPS.split(',').map(ip =>
    ip.trim()) : defaults] *)
Definition allowedFrom (env : Env) (defaults : list jsstring) : list jsstring :=
  match ENV_ALLOWED_IPS env with
  | Some v => if truthy v then map trim (split (ch ",") v) else defaults
  | None => defaults
  end.

Definition isDevelopment (env : Env) : bool :=
  match NODE_ENV env with
  | Some v => jsstring_eqb v (js "development")
  | None => false
  end.

(** [middleware.ts]: the address is the first field of [x-forwarded-for],
    else [x-real-ip], else [request.ip]. *)
Module MiddlewareTs.

Definition ALLOWED_IPS (env : Env) : list jsstring :=
  allowedFrom env [js "162.120.184.17"].

Definition clientIp (request : Access) : jsstring :=
  let forwarded :=
    match header request (js "x-forwarded-for") with
    | Some v => firstField v
    | None => []
    end in
  if truthy forwarded then forwarded
  else or_else (header request (js "x-real-ip")) (or_else (ip request) []).

Definition middleware (env : Env) (request : Access) : Verdict :=
  if isDevelopment env then Next
  else if negb (listIncludes (ALLOWED_IPS env) (clientIp request))
       then Denied (clientIp request) None
       else Next.

End MiddlewareTs.

(** The later version, which reads five headers and reports the list in
    its refusal. *)
Module MiddlewareHeaders.

Definition ALLOWED_IPS (env : Env) : list jsstring :=
  allowedFrom env [js "162.120.184.17"; js "150.249.192.229"].

Definition clientIp (request : Access) : jsstring :=
  let get name := or_else (header request name) [] in
  if truthy (get (js "x-forwarded-for")) then
    firstField (get (js "x-forwarded-for"))
  else if truthy (get (js "x-real-ip")) then trim (get (js "x-real-ip"))
  else if truthy (get (js "x-client-ip")) then trim (get (js "x-client-ip"))
  else if truthy (get (js "cf-connecting-ip"))
       then trim (get (js "cf-connecting-ip"))
  else if truthy (get (js "x-original-forwarded-for"))
       then firstField (get (js "x-original-forwarded-for"))
  else [].

Definition middleware (env : Env) (request : Access) : Verdict :=
  if isDevelopment env then Next
  else if negb (listIncludes (ALLOWED_IPS env) (clientIp request))
       then Denied (clientIp request) (Some (ALLOWED_IPS env))
       else Next.

End MiddlewareHeaders.

(** More concrete requests. *)
Module Scenario2.
Import Reference.

Definition slack_url : jsstring := js "https://app.slack.com/client/T01/C02".

(** The completion service answers every request with one point. *)
Definition provider_ok : jsstring -> jsstring -> option ProviderResponse :=
  fun _ _ => Some {| providerStatus := 200; firstChoice := Some (js "- point") |}.

Definition rt_summary : Runtime :=
  runtime (serve Scenario.hello_url
             (page (Some (js "text/html")) Scenario.hello_page))
          (Some (js "sk-test")) provider_ok.

End Scenario2.

(** [analyzeUrl].  [Json] holds the members of a JSON object that the
    client reads, a missing member being [None]; [Delivery] is what the
    [fetch] of the route gives: a rejection with its message, or a status
    and a body that parses as an object ([inl]) or makes
    [response.json()] throw ([inr], with the message).  The URL is parsed
    with the [parseURL] of [rt]; [invalidMessage] is the message of the
    error [new URL] throws. *)
Record Json := {
  j_title : option jsstring;
  j_content : option jsstring;
  j_error : option jsstring
}.

Inductive Delivery :=
| Unreachable (message : jsstring)
| Delivered (code : N) (body : Json + jsstring).

Definition ANALYSIS_FAILED : jsstring := js "URL解析に失敗しました".

(** The value of the [catch] block. *)
Definition failure (message : jsstring) : Json :=
  {| j_title := Some []; j_content := Some []; j_error := Some message |}.

(** The result, and the URLs that were posted to the route. *)
Definition analyzeUrl (rt : Runtime) (invalidMessage : jsstring -> jsstring)
           (post : jsstring -> Delivery) (url : jsstring)
  : Json * list jsstring :=
  match parseURL rt url with
  | None => (failure (invalidMessage url), [])
  | Some _ =>
      match post url with
      | Unreachable message => (failure message, [url])
      | Delivered code (inr message) => (failure message, [url])
      | Delivered code (inl data) =>
          if negb (ok code)
          then (failure (or_else (j_error data) ANALYSIS_FAILED), [url])
          else (data, [url])
      end
  end.

(** *** The site as the client meets it

    A request for the route passes the middleware first; its verdict is
    either the 403 response or the reply of [POST] to the body
    [{ url }]. *)

Definition respond (reply : Reply) : Delivery :=
  match reply with
  | ErrorReply e code =>
      Delivered code
        (inl {| j_title := None; j_content := None; j_error := Some e |})
  | Note t c =>
      Delivered 200
        (inl {| j_title := Some t; j_content := Some c; j_error := None |})
  end.

Definition refusal : Delivery :=
  Delivered 403
    (inl {| j_title := None; j_content := None;
            j_error := Some (js "Access Denied") |}).

Definition site (verdict : Verdict) (rt : Runtime) (url : jsstring) : Delivery :=
  match verdict with
  | Denied _ _ => refusal
  | Next =>
      match fst (run_POST rt (Body (Some url))) with
      | Some reply => respond reply
      | None => Unreachable []
      end
  end.

(** *** The title field of the note dialog

    The handler run when the title field loses focus.  [contentInput] is
    [None] while the content field is not mounted; a preview is [None]
    when it was set to a missing member of the result. *)
Record NoteDialog := {
  titleInput : jsstring;
  contentInput : option jsstring;
  previewTitle : option jsstring;
  previewContent : option jsstring;
  isAnalyzingUrl : bool;
  alerts : list jsstring
}.

(** Assigning a possibly missing member to [input.value]. *)
Definition input_value (o : option jsstring) : jsstring :=
  match o with
  | Some s => s
  | None => js "undefined"
  end.

Definition onTitleBlur (rt : Runtime) (invalidMessage : jsstring -> jsstring)
           (post : jsstring -> Delivery) (d : NoteDialog)
  : NoteDialog * list jsstring :=
  let value := trim (titleInput d) in
  let typed :=
    match contentInput d with
    | Some c => truthy (trim c)
    | None => false
    end in
  if isValidUrl rt value && negb typed then
    let (result, sent) := analyzeUrl rt invalidMessage post value in
    if negb (truthy (or_else (j_error result) [])) then
      ({| titleInput := input_value (j_title result);
          contentInput :=
            match contentInput d with
            | Some _ => Some (input_value (j_content result))
            | None => None
            end;
          previewTitle := j_title result;
          previewContent :=
            match contentInput d with
            | Some _ => j_content result
            | None => previewContent d
            end;
          isAnalyzingUrl := false;
          alerts := alerts d |}, sent)
    else
      ({| titleInput := titleInput d;
          contentInput := contentInput d;
          previewTitle := previewTitle d;
          previewContent := previewContent d;
          isAnalyzingUrl := false;
          alerts := alerts d ++
                    [js "URL解析エラー: " ++ or_else (j_error result) []] |},
       sent)
  else (d, []).

(* ================================================================= *)
(** ** The workspace kept in the browser

    The state of the [KnowledgeWorkspace] component that keeps its
    projects in local storage, and its handlers.  A handler is the state
    after it has run, given what it asks of the outside: the identifiers
    of [uid()], the time of [Date.now()], the answer to [confirm]. *)

Module Workspace.

Record Note := {
  n_id : jsstring;
  n_title : jsstring;
  n_content : jsstring;
  updatedAt : Z                           (* epoch ms, as [Date.now()] gives *)
}.

Record Project := {
  p_id : jsstring;
  p_name : jsstring;
  notes : list Note
}.

(** The draft of the dialog; [d_id] is absent for a new note. *)
Record Draft := {
  d_id : option jsstring;
  d_title : jsstring;
  d_content : jsstring
}.

Record State := {
  projects : list Project;
  activeProjectId : option jsstring;
  query : jsstring;
  selectedNoteId : option jsstring;
  isNoteDialogOpen : bool;
  draft : Draft;
  renameProjectId : option jsstring;
  projectNameDraft : jsstring
}.

(** The setters of the state hooks. *)
Definition setProjects (v : list Project) (s : State) : State :=
  {| projects := v; activeProjectId := activeProjectId s; query := query s;
     selectedNoteId := selectedNoteId s; isNoteDialogOpen := isNoteDialogOpen s;
     draft := draft s; renameProjectId := renameProjectId s;
     projectNameDraft := projectNameDraft s |}.

Definition setActiveProjectId (v : option jsstring) (s : State) : State :=
  {| projects := projects s; activeProjectId := v; query := query s;
     selectedNoteId := selectedNoteId s; isNoteDialogOpen := isNoteDialogOpen s;
     draft := draft s; renameProjectId := renameProjectId s;
     projectNameDraft := projectNameDraft s |}.

Definition setQuery (v : jsstring) (s : State) : State :=
  {| projects := projects s; activeProjectId := activeProjectId s; query := v;
     selectedNoteId := selectedNoteId s; isNoteDialogOpen := isNoteDialogOpen s;
     draft := draft s; renameProjectId := renameProjectId s;
     projectNameDraft := projectNameDraft s |}.

Definition setSelectedNoteId (v : option jsstring) (s : State) : State :=
  {| projects := projects s; activeProjectId := activeProjectId s;
     query := query s; selectedNoteId := v;
     isNoteDialogOpen := isNoteDialogOpen s; draft := draft s;
     renameProjectId := renameProjectId s;
     projectNameDraft := projectNameDraft s |}.

Definition setNoteDialogOpen (v : bool) (s : State) : State :=
  {| projects := projects s; activeProjectId := activeProjectId s;
     query := query s; selectedNoteId := selectedNoteId s;
     isNoteDialogOpen := v; draft := draft s;
     renameProjectId := renameProjectId s;
     projectNameDraft := projectNameDraft s |}.

Definition setDraft (v : Draft) (s : State) : State :=
  {| projects := projects s; activeProjectId := activeProjectId s;
     query := query s; selectedNoteId := selectedNoteId s;
     isNoteDialogOpen := isNoteDialogOpen s; draft := v;
     renameProjectId := renameProjectId s;
     projectNameDraft := projectNameDraft s |}.

Definition setRenameProjectId (v : option jsstring) (s : State) : State :=
  {| projects := projects s; activeProjectId := activeProjectId s;
     query := query s; selectedNoteId := selectedNoteId s;
     isNoteDialogOpen := isNoteDialogOpen s; draft := draft s;
     renameProjectId := v; projectNameDraft := projectNameDraft s |}.

Definition setProjectNameDraft (v : jsstring) (s : State) : State :=
  {| projects := projects s; activeProjectId := activeProjectId s;
     query := query s; selectedNoteId := selectedNoteId s;
     isNoteDialogOpen := isNoteDialogOpen s; draft := draft s;
     renameProjectId := renameProjectId s; projectNameDraft := v |}.

(** The state of the first render. *)
Definition initial : State :=
  {| projects := []; activeProjectId := None; query := []; selectedNoteId := None;
     isNoteDialogOpen := false;
     draft := {| d_id := None; d_title := []; d_content := [] |};
     renameProjectId := None; projectNameDraft := [] |}.

(** [x === id] for an identifier [x] that may be [null] or absent. *)
Definition is_id (x : option jsstring) (id : jsstring) : bool :=
  match x with
  | Some v => jsstring_eqb v id
  | None => false
  end.

(** [projects.find(p => p.id === activeProjectId) || null] *)
Definition activeProject (s : State) : option Project :=
  find (fun p => is_id (activeProjectId s) (p_id p)) (projects s).

(** [activeProject?.notes.find(n => n.id === selectedNoteId) || null] *)
Definition selectedNote (s : State) : option Note :=
  match activeProject s with
  | Some p => find (fun n => is_id (selectedNoteId s) (n_id n)) (notes p)
  | None => None
  end.

(** [activeProject?.notes ?? []] *)
Definition activeNotes (s : State) : list Note :=
  match activeProject s with
  | Some p => notes p
  | None => []
  end.

(** [p?.notes[0]?.id ?? null] *)
Definition firstNoteId (p : option Project) : option jsstring :=
  match p with
  | Some p => option_map n_id (hd_error (notes p))
  | None => None
  end.

(** The seed of the first launch.  [uid k] and [now k] are the results of
    the calls of [uid()] and of [Date.now()], counted from zero in the
    order of evaluation. *)
Definition seed (uid : nat -> jsstring) (now : nat -> Z) : list Project :=
  [ {| p_id := uid 0%nat;
       p_name := js "プロジェクトA";
       notes :=
         [ {| n_id := uid 1%nat;
              n_title := js "キックオフメモ";
              n_content := js "目的、スコープ、メンバー、タイムライン。";
              updatedAt := (now 0%nat - 1000 * 60 * 60 * 24)%Z |};
           {| n_id := uid 2%nat;
              n_title := js "要件まとめ";
              n_content := js "必須/任意、非機能、制約。";
              updatedAt := (now 1%nat - 1000 * 60 * 60 * 2)%Z |} ] |};
    {| p_id := uid 3%nat;
       p_name := js "プロジェクトB";
       notes :=
         [ {| n_id := uid 4%nat;
              n_title := js "リサーチログ";
              n_content := js "競合、参考リンク、学び。";
              updatedAt := (now 2%nat - 1000 * 60 * 30)%Z |} ] |} ].

(** The effect that loads the state: [stored] is the list parsed from
    local storage, absent when there is none or when it does not parse;
    [seeded] is the seed, which is not empty. *)
Definition load (stored : option (list Project)) (seeded : list Project)
  : State :=
  let ps := match stored with
            | Some parsed => parsed
            | None => seeded
            end in
  setSelectedNoteId (firstNoteId (hd_error ps))
    (setActiveProjectId (option_map p_id (hd_error ps))
       (setProjects ps initial)).

(** [list.sort((a, b) => b.updatedAt - a.updatedAt)]: latest first, and the
    sort is stable, so a note is inserted before the notes of its own
    time that follow it. *)
Fixpoint insertNote (n : Note) (l : list Note) : list Note :=
  match l with
  | [] => [n]
  | m :: l' =>
      if (updatedAt m <=? updatedAt n)%Z then n :: l
      else m :: insertNote n l'
  end.

Fixpoint sortNotes (l : list Note) : list Note :=
  match l with
  | [] => []
  | n :: l' => insertNote n (sortNotes l')
  end.

(** The array of the active project after it has been sorted in place. *)
Fixpoint sortActive (active : option jsstring) (ps : list Project)
  : list Project :=
  match ps with
  | [] => []
  | p :: ps' =>
      if is_id active (p_id p)
      then {| p_id := p_id p; p_name := p_name p;
              notes := sortNotes (notes p) |} :: ps'
      else p :: sortActive active ps'
  end.

Section View.
Variable rt : Runtime.

Definition matches (q : jsstring) (n : Note) : bool :=
  includes q (toLowerCase rt (n_title n))
  || includes q (toLowerCase rt (n_content n)).

(** [filteredNotes]: the notes of the side bar, and the projects after the
    call.  With a blank query [sort] is called on the array of the active
    project itself, with a query on the fresh array of [filter]. *)
Definition filteredNotes (s : State) : list Note * list Project :=
  let list := activeNotes s in
  if negb (truthy (trim (query s)))
  then (sortNotes list, sortActive (activeProjectId s) (projects s))
  else (sortNotes (filter (matches (toLowerCase rt (query s))) list),
        projects s).
End View.

Definition NEW_PROJECT : jsstring := js "新規プロジェクト".

Definition addProject (fresh : jsstring) (s : State) : State :=
  let p := {| p_id := fresh; p_name := NEW_PROJECT; notes := [] |} in
  setProjectNameDraft (p_name p)
    (setRenameProjectId (Some (p_id p))
       (setSelectedNoteId None
          (setActiveProjectId (Some (p_id p))
             (setProjects (p :: projects s) s)))).

Definition renameProject (id name : jsstring) (s : State) : State :=
  setProjects
    (map (fun p => if jsstring_eqb (p_id p) id
                   then {| p_id := p_id p; p_name := name; notes := notes p |}
                   else p)
         (projects s))
    s.

Definition deleteProject (confirmed : bool) (id : jsstring) (s : State)
  : State :=
  if negb confirmed then s
  else
    let s1 :=
      setProjects
        (filter (fun p => negb (jsstring_eqb (p_id p) id)) (projects s)) s in
    if is_id (activeProjectId s) id then
      let remaining :=
        filter (fun p => negb (jsstring_eqb (p_id p) id)) (projects s) in
      setSelectedNoteId (firstNoteId (hd_error remaining))
        (setActiveProjectId (option_map p_id (hd_error remaining)) s1)
    else s1.

Definition openNewNote (s : State) : State :=
  setNoteDialogOpen true
    (setDraft {| d_id := None; d_title := []; d_content := [] |} s).

Definition openEditNote (note : Note) (s : State) : State :=
  setNoteDialogOpen true
    (setDraft {| d_id := Some (n_id note); d_title := n_title note;
                 d_content := n_content note |} s).

Definition TITLE_REQUIRED : jsstring := js "タイトルを入力してください".

(** [if (draft.id)] *)
Definition has_id (d : Draft) : bool :=
  match d_id d with
  | Some id => truthy id
  | None => false
  end.

(** The notes of a project that [saveNote] writes to: an update of the
    notes that have the identifier of the draft, or a new note in front. *)
Definition savedNotes (now : Z) (fresh : jsstring) (d : Draft)
           (l : list Note) : list Note :=
  if has_id d then
    map (fun n => if is_id (d_id d) (n_id n)
                  then {| n_id := n_id n; n_title := trim (d_title d);
                          n_content := d_content d; updatedAt := now |}
                  else n) l
  else {| n_id := fresh; n_title := trim (d_title d);
          n_content := d_content d; updatedAt := now |} :: l.

(** The [map] over the projects; [uid k] is the result of the call of
    [uid()] for the project that comes after [k] others with the
    identifier of the active project. *)
Fixpoint saveInto (now : Z) (uid : nat -> jsstring) (d : Draft)
         (active : jsstring) (k : nat) (ps : list Project) : list Project :=
  match ps with
  | [] => []
  | p :: ps' =>
      if negb (jsstring_eqb (p_id p) active)
      then p :: saveInto now uid d active k ps'
      else {| p_id := p_id p; p_name := p_name p;
              notes := savedNotes now (uid k) d (notes p) |}
           :: saveInto now uid d active (S k) ps'
  end.

(** The new state and the alert, when one is shown. *)
Definition saveNote (now : Z) (uid : nat -> jsstring) (s : State)
  : State * option jsstring :=
  match activeProject s with
  | None => (s, None)
  | Some active =>
      if negb (truthy (trim (d_title (draft s)))) then (s, Some TITLE_REQUIRED)
      else
        (setNoteDialogOpen false
           (setProjects
              (saveInto now uid (draft s) (p_id active) 0 (projects s)) s),
         None)
  end.

Definition deleteNote (confirmed : bool) (id : jsstring) (s : State) : State :=
  match activeProject s with
  | None => s
  | Some active =>
      if negb confirmed then s
      else
        let s1 :=
          setProjects
            (map (fun p =>
                    if jsstring_eqb (p_id p) (p_id active)
                    then {| p_id := p_id p; p_name := p_name p;
                            notes := filter
                                       (fun n => negb (jsstring_eqb (n_id n) id))
                                       (notes p) |}
                    else p)
                 (projects s)) s in
        if is_id (selectedNoteId s) id then setSelectedNoteId None s1 else s1
  end.

(** *** The controls

    What the user can do.  A control that is not displayed gives no state. *)
Inductive Action :=
| Render
| TypeQuery (value : jsstring)
| ClickTab (id : jsstring)
| ClickNewProject (fresh : jsstring)
| ClickRename
| TypeProjectName (value : jsstring)
| ClickSaveName
| ClickCancelName
| ClickDeleteProject (confirmed : bool)
| ClickAdd
| ClickNote (id : jsstring)
| ClickEdit
| ClickDeleteNote (confirmed : bool)
| TypeTitle (value : jsstring)
| TypeContent (value : jsstring)
| DialogOpenChange (open : bool)
| ClickSaveNote (now : Z) (uid : nat -> jsstring).

Section Controls.
Variable rt : Runtime.

Definition step (a : Action) (s : State) : option State :=
  match a with
  | Render => Some (setProjects (snd (filteredNotes rt s)) s)
  | TypeQuery value => Some (setQuery value s)
  | ClickTab id =>
      match find (fun p => jsstring_eqb (p_id p) id) (projects s) with
      | Some p =>
          Some (setSelectedNoteId
                  (firstNoteId
                     (find (fun x => jsstring_eqb (p_id x) (p_id p))
                           (projects s)))
                  (setActiveProjectId (Some (p_id p)) s))
      | None => None
      end
  | ClickNewProject fresh => Some (addProject fresh s)
  | ClickRename =>
      match activeProject s with
      | Some p => Some (setProjectNameDraft (p_name p)
                          (setRenameProjectId (Some (p_id p)) s))
      | None => None
      end
  | TypeProjectName value => Some (setProjectNameDraft value s)
  | ClickSaveName =>
      match renameProjectId s with
      | Some id =>
          if truthy id then
            match find (fun p => jsstring_eqb (p_id p) id) (projects s) with
            | Some p =>
                Some (setRenameProjectId None
                        (renameProject (p_id p)
                           (if truthy (trim (projectNameDraft s))
                            then trim (projectNameDraft s) else p_name p) s))
            | None => None
            end
          else None
      | None => None
      end
  | ClickCancelName => Some (setRenameProjectId None s)
  | ClickDeleteProject confirmed =>
      match activeProject s with
      | Some p => Some (deleteProject confirmed (p_id p) s)
      | None => None
      end
  | ClickAdd => Some (openNewNote s)
  | ClickNote id =>
      if existsb (fun n => jsstring_eqb (n_id n) id) (fst (filteredNotes rt s))
      then Some (setSelectedNoteId (Some id) s)
      else None
  | ClickEdit =>
      match selectedNote s with
      | Some n => Some (openEditNote n s)
      | None => None
      end
  | ClickDeleteNote confirmed =>
      match selectedNote s with
      | Some n => Some (deleteNote confirmed (n_id n) s)
      | None => None
      end
  | TypeTitle value =>
      Some (setDraft {| d_id := d_id (draft s); d_title := value;
                        d_content := d_content (draft s) |} s)
  | TypeContent value =>
      Some (setDraft {| d_id := d_id (draft s); d_title := d_title (draft s);
                        d_content := value |} s)
  | DialogOpenChange open => Some (setNoteDialogOpen open s)
  | ClickSaveNote now uid => Some (fst (saveNote now uid s))
  end.

(** The states that the controls lead to. *)
Inductive reachable (s0 : State) : State -> Prop :=
| reach_start : reachable s0 s0
| reach_step (a : Action) (s s' : State) :
    reachable s0 s -> step a s = Some s' -> reachable s0 s'.

(** The controls of a list, one after the other. *)
Fixpoint run (l : list Action) (s : State) : option State :=
  match l with
  | [] => Some s
  | a :: l' =>
      match step a s with
      | Some s' => run l' s'
      | None => None
      end
  end.

Definition after (l : list Action) (s : State) : State :=
  match run l s with
  | Some s' => s'
  | None => s
  end.

End Controls.

(** The active project, when one is named, is among the projects, and the
    selected note, when one is named, is a note of the active project. *)
Definition consistent (s : State) : Prop :=
  (activeProjectId s = None \/ exists p, activeProject s = Some p) /\
  (selectedNoteId s = None \/ exists n, selectedNote s = Some n).

(** No project has the empty name. *)
Definition named (ps : list Project) : Prop :=
  Forall (fun p => truthy (p_name p) = true) ps.

(** Latest first. *)
Definition latest_first (l : list Note) : Prop :=
  StronglySorted (fun a b => (updatedAt b <= updatedAt a)%Z) l.

(** The notes of a list that have the time [t], in their order. *)
Definition at_time (t : Z) (l : list Note) : list Note :=
  filter (fun n => (updatedAt n =? t)%Z) l.

(** *** A session *)
Module Desk.

Definition uid (k : nat) : jsstring := js "id_" ++ [48 + N.of_nat k].
Definition clock (k : nat) : Z := 1000%Z.

Definition memo : Note :=
  {| n_id := js "a"; n_title := js "Memo"; n_content := js "first";
     updatedAt := 10%Z |}.
Definition plan : Note :=
  {| n_id := js "b"; n_title := js "Plan"; n_content := js "second";
     updatedAt := 30%Z |}.
Definition log : Note :=
  {| n_id := js "c"; n_title := js "Log"; n_content := js "third";
     updatedAt := 30%Z |}.

Definition inbox : Project :=
  {| p_id := js "p1"; p_name := js "Inbox"; notes := [memo; plan; log] |}.
Definition archive : Project :=
  {| p_id := js "p2"; p_name := js "Archive"; notes := [] |}.

Definition stored : list Project := [inbox; archive].
Definition start : State := load (Some stored) (seed uid clock).

(** The third note is chosen and its title edited. *)
Definition edit : list Action :=
  [ClickNote (js "c"); ClickEdit; TypeTitle (js "  Log 2 ")].
Definition editing : State := after Scenario.rt_offline edit start.

(** Then the note is saved, the project renamed to a blank name and
    deleted. *)
Definition session : list Action :=
  edit ++ [ClickSaveNote 100%Z uid; ClickRename; TypeProjectName (js "   ");
           ClickSaveName; Render; ClickDeleteProject true].
Definition finished : State := after Scenario.rt_offline session start.

End Desk.

End Workspace.

(* ================================================================= *)
(** ** Shapes of the visible text *)

(** The string begins with [>]. *)
Definition gt_next (s : jsstring) : bool :=
  match s with
  | c :: _ => c =? ch ">"
  | [] => false
  end.

(** No [<] of the string opens a tag: each is followed at once by [>], or
    by no [>] at all. *)
Fixpoint tagless (s : jsstring) : bool :=
  match s with
  | [] => true
  | c :: s' =>
      (negb (c =? ch "<") || gt_next s' || free_of_sep (ch ">") s')
      && tagless s'
  end.

(** The string begins with white space. *)
Definition space_next (s : jsstring) : bool :=
  match s with
  | c :: _ => is_space c
  | [] => false
  end.

(** Every white space character of the string is U+0020, and none comes
    after it. *)
Fixpoint single_spaced (s : jsstring) : bool :=
  match s with
  | [] => true
  | c :: s' =>
      (if is_space c then (c =? 0x20) && negb (space_next s') else true)
      && single_spaced s'
  end.

(* ================================================================= *)
(** ** General facts about the string operations *)

Lemma jsstring_eqb_eq (a b : jsstring) : jsstring_eqb a b = true <-> a = b.
Proof.
  revert b; induction a as [|x a IH]; intros [|y b]; simpl; split;
    try congruence; try reflexivity.
  - intros H. apply andb_true_iff in H as [H1 H2].
    apply N.eqb_eq in H1. apply IH in H2. congruence.
  - intros H. injection H as -> ->.
    rewrite N.eqb_refl. simpl. now apply IH.
Qed.

Lemma jsstring_eqb_refl (a : jsstring) : jsstring_eqb a a = true.
Proof. now apply jsstring_eqb_eq. Qed.

Lemma jsstring_eqb_neq (a b : jsstring) : jsstring_eqb a b = false <-> a <> b.
Proof.
  split.
  - intros H E. apply jsstring_eqb_eq in E. congruence.
  - intros H. destruct (jsstring_eqb a b) eqn:E; [|reflexivity].
    apply jsstring_eqb_eq in E. contradiction.
Qed.

Lemma startsWith_app (p s : jsstring) : startsWith p (p ++ s) = true.
Proof.
  induction p as [|x p IH]; simpl; [reflexivity|].
  now rewrite N.eqb_refl.
Qed.

Lemma startsWith_length (p s : jsstring) :
  startsWith p s = true -> (length p <= length s)%nat.
Proof.
  revert s; induction p as [|x p IH]; intros [|y s]; simpl; try lia; try discriminate.
  intros H. apply andb_true_iff in H as [_ H]. apply IH in H. lia.
Qed.

Lemma includes_here (sub s : jsstring) :
  startsWith sub s = true -> includes sub s = true.
Proof. intros H. destruct s; simpl in *; rewrite H; reflexivity. Qed.

Lemma includes_skip (sub a s : jsstring) :
  includes sub s = true -> includes sub (a ++ s) = true.
Proof.
  intros H. induction a as [|x a IH]; simpl; [exact H|].
  rewrite IH. apply orb_true_r.
Qed.

(** A string includes each of its infixes. *)
Lemma includes_infix (sub a b : jsstring) : includes sub (a ++ sub ++ b) = true.
Proof. apply includes_skip, includes_here, startsWith_app. Qed.

(* ----------------------------------------------------------------- *)
(** *** Replacement never lengthens a string when the callback does not *)

Section ReplaceLength.
Variable pat : pattern.
Variable f : jsstring -> jsstring.
Hypothesis f_short : forall m, (length (f m) <= length m)%nat.

Lemma replace_go_length (s : jsstring) :
  forall skip,
    (length (replace_go pat f skip s) + Nat.min skip (length s) <= length s)%nat.
Proof.
  induction s as [|c s IH]; intros skip.
  - simpl. destruct skip; simpl.
    + destruct (match_len pat []); simpl; [|lia].
      specialize (f_short []). simpl in f_short. lia.
    + lia.
  - destruct skip as [|k].
    + cbn [replace_go]. destruct (match_len pat (c :: s)) as [[|n]|].
      * rewrite length_app. specialize (f_short []). specialize (IH 0%nat).
        simpl in *. lia.
      * rewrite length_app. specialize (f_short (firstn (S n) (c :: s))).
        rewrite length_firstn in f_short. specialize (IH n).
        simpl length in *. lia.
      * specialize (IH 0%nat). simpl in *. lia.
    + cbn [replace_go]. specialize (IH k). simpl. lia.
Qed.

Lemma replace_all_length (s : jsstring) :
  (length (replace_all pat f s) <= length s)%nat.
Proof.
  unfold replace_all. pose proof (replace_go_length s 0). simpl in *. lia.
Qed.
End ReplaceLength.

Lemma lookup_entityMap_length (m v : jsstring) :
  lookup entityMap m = Some v -> (length v <= length m)%nat.
Proof.
  unfold entityMap. cbn [lookup].
  repeat match goal with
         | |- context [jsstring_eqb ?k m] =>
             let E := fresh "E" in
             destruct (jsstring_eqb k m) eqn:E;
             [ apply jsstring_eqb_eq in E; subst m;
               intros H; injection H as <-; vm_compute; lia | ]
         end.
  intros H; discriminate H.
Qed.

Lemma fromCharCode_length (x : number) : length (fromCharCode x) = 1%nat.
Proof. destruct x; reflexivity. Qed.

Lemma replaceEntity_length (m : jsstring) :
  (length (replaceEntity m) <= length m)%nat.
Proof.
  unfold replaceEntity.
  destruct (lookup entityMap m) as [v|] eqn:L.
  - now apply lookup_entityMap_length.
  - destruct (startsWith (js "&#") m) eqn:S; [|lia].
    apply startsWith_length in S. change (length (js "&#")) with 2%nat in S.
    destruct (startsWith (js "x") (slice_2_m1 m));
      rewrite fromCharCode_length; lia.
Qed.

Lemma decodeHtmlEntities_length (s : jsstring) :
  (length (decodeHtmlEntities s) <= length s)%nat.
Proof. apply replace_all_length, replaceEntity_length. Qed.

(* ================================================================= *)
(** ** The body excerpt (claim C8) *)

Lemma rawBodyText_length (html : jsstring) :
  (length (rawBodyText html) <= MAX_BODY)%nat.
Proof. unfold rawBodyText, substring0. rewrite length_firstn. lia. Qed.

Lemma extractBody_length (html : jsstring) :
  (length (extractBody html) <= MAX_BODY)%nat.
Proof.
  unfold extractBody.
  pose proof (decodeHtmlEntities_length (rawBodyText html)).
  pose proof (rawBodyText_length html). lia.
Qed.

(** C8.  For every document the body excerpt is at most 3000 code units
    long, right after it is cut and again after its entities are decoded,
    and the cut is made before the decoding: the excerpt is the decoding of
    the first 3000 code units of the visible text. *)
Theorem body_excerpt_bounded (html : jsstring) :
  (length (rawBodyText html) <= 3000)%nat /\
  (length (extractBody html) <= 3000)%nat /\
  extractBody html = decodeHtmlEntities (firstn 3000 (visibleText html)).
Proof.
  split; [exact (rawBodyText_length html)|].
  split; [exact (extractBody_length html)|reflexivity].
Qed.

(* ================================================================= *)
(** ** Validation (claim C1) *)

Lemma summarize_outcome rt url pageTitle bodyText log :
  exists calls,
    snd (summarize rt url pageTitle bodyText log) = log ++ calls /\
    (fst (summarize rt url pageTitle bodyText log) = None \/
     exists t c, fst (summarize rt url pageTitle bodyText log) = Some (Note t c)).
Proof.
  assert (Hret : forall r : Reply,
             snd (ret r log) = log ++ [] /\ fst (ret r log) = Some r).
  { intros r. simpl. now rewrite app_nil_r. }
  unfold summarize.
  destruct (OPENAI_API_KEY rt) as [key|].
  2:{ exists []. split; [apply Hret | right; simpl; eauto]. }
  destruct (truthy key).
  2:{ exists []. split; [apply Hret | right; simpl; eauto]. }
  unfold bind, fetchCompletion.
  set (message := providerMessage pageTitle url bodyText).
  exists [ProviderRequest key message].
  destruct (fetchProvider rt key message) as [resp|]; [|simpl; auto].
  destruct (ok (providerStatus resp)); [|simpl; eauto].
  destruct (firstChoice resp); simpl; eauto.
Qed.

Lemma analyze_outcome rt url host :
  exists calls,
    snd (analyze rt url host []) = PageRequest url :: calls /\
    (fst (analyze rt url host []) = None \/
     exists t c, fst (analyze rt url host []) = Some (Note t c)).
Proof.
  unfold analyze, bind, fetch. simpl.
  destruct (fetchPage rt url) as [resp|]; [|simpl; eauto].
  destruct (ok (status resp)); simpl; [|eauto].
  destruct (arrayBuffer resp) as [buffer|]; simpl; [|eauto].
  match goal with
  | |- context [summarize rt url ?t ?b ?l] =>
      destruct (summarize_outcome rt url t b l) as (calls & Hs & Hf)
  end.
  exists calls. split; [exact Hs | exact Hf].
Qed.

Lemma fallbackNote_is_note url host path :
  exists t c, fallbackNote url host path = Note t c.
Proof.
  unfold fallbackNote, slackNote, githubNote, defaultNote.
  destruct (includes (js "slack.com") host); [eauto|].
  destruct (includes (js "github.com") host && _)%bool; eauto.
Qed.

(** Past the two checks the handler always answers with a note, and the
    page request is the first call it makes. *)
Lemma POST_parsed rt url u :
  truthy url = true -> parseURL rt url = Some u ->
  exists t c calls,
    run_POST rt (Body (Some url)) = (Some (Note t c), PageRequest url :: calls).
Proof.
  intros Ht Hp. unfold run_POST, POST, try_catch, bind, requestUrl, ret.
  rewrite Ht, Hp. simpl.
  destruct (analyze_outcome rt url (hostname u)) as (calls & Hs & Hf).
  destruct (analyze rt url (hostname u) []) as [[r|] log]; simpl in *; subst log.
  - destruct Hf as [Hf | (t & c & Hf)]; [discriminate|].
    injection Hf as ->. eauto.
  - destruct (fallbackNote_is_note url (hostname u) (pathname u)) as (t & c & E).
    rewrite E. eauto.
Qed.

(** C1, as the code has it.  The handler rejects exactly the inputs that
    are empty or that the URL parser refuses, with status 400 and without
    any network call; it does not look at the scheme, and every input that
    parses, whatever its scheme, is fetched and answered with a note. *)
Theorem validation_is_parse_only (rt : Runtime) (s : jsstring) :
  match (if truthy s then parseURL rt s else None) with
  | None =>
      exists e, run_POST rt (Body (Some s)) = (Some (ErrorReply e 400), [])
  | Some _ =>
      exists t c calls,
        run_POST rt (Body (Some s)) = (Some (Note t c), PageRequest s :: calls)
  end.
Proof.
  destruct (truthy s) eqn:Ht.
  - destruct (parseURL rt s) as [u|] eqn:Hp.
    + now apply (POST_parsed rt s u).
    + unfold run_POST, POST, try_catch, bind, requestUrl, ret.
      rewrite Ht, Hp. simpl. eauto.
  - unfold run_POST, POST, try_catch, bind, requestUrl, ret.
    rewrite Ht. simpl. eauto.
Qed.

(** C1 fails for a scheme other than http and https: the URL
    [ftp://example.com/file] parses, [isValidUrl] refuses it, and the
    handler issues the page request and answers with the default note
    instead of an error. *)
Lemma ftp_url_is_fetched :
  isValidUrl Scenario.rt_offline Scenario.ftp_url = false /\
  option_map protocol (parseURL Scenario.rt_offline Scenario.ftp_url)
    = Some (js "ftp:") /\
  run_POST Scenario.rt_offline (Body (Some Scenario.ftp_url))
    = (Some (defaultNote Scenario.ftp_url (js "example.com")),
       [PageRequest Scenario.ftp_url]).
Proof. vm_compute. repeat split. Qed.

(** The two other ways a request is refused: no [url] member, and a body
    that cannot be read. *)
Lemma POST_no_url (rt : Runtime) :
  run_POST rt (Body None) = (Some (ErrorReply (js "URLが指定されていません") 400), []).
Proof. reflexivity. Qed.

Lemma POST_bad_body (rt : Runtime) :
  run_POST rt BadBody
    = (Some (ErrorReply (js "URL解析中にエラーが発生しました") 500), []).
Proof. reflexivity. Qed.

Example bad_input_refused :
  run_POST Scenario.rt_offline (Body (Some Scenario.bad_input))
    = (Some (ErrorReply (js "無効なURLです") 400), []).
Proof. vm_compute. reflexivity. Qed.

(** The scheme is checked by [isValidUrl] alone. *)
Lemma isValidUrl_scheme (rt : Runtime) (text : jsstring) :
  isValidUrl rt text = true <->
  exists u, parseURL rt (trim text) = Some u /\
            (protocol u = js "http:" \/ protocol u = js "https:").
Proof.
  unfold isValidUrl. destruct (parseURL rt (trim text)) as [u|]; split.
  - intros H. exists u. split; [reflexivity|].
    apply orb_true_iff in H as [H|H]; apply jsstring_eqb_eq in H; auto.
  - intros (u' & E & H). injection E as <-.
    apply orb_true_iff. destruct H as [H|H]; rewrite H;
      [left|right]; apply jsstring_eqb_refl.
  - discriminate.
  - intros (u' & E & _). discriminate.
Qed.

(* ================================================================= *)
(** ** Charset resolution (claims C2 and C3) *)

Section CharsetFacts.
Variable rt : Runtime.
Variable buffer : bytes.

Let unclean (c : jsstring) : bool := negb (decodesCleanly rt c buffer).

Lemma tryCandidates_none (l : list jsstring) :
  forallb unclean l = true -> tryCandidates rt l buffer = None.
Proof.
  induction l as [|c l IH]; simpl; [reflexivity|].
  intros H. apply andb_true_iff in H as [Hc Hl].
  unfold unclean, decodesCleanly in Hc.
  destruct (decodeFatal rt c buffer) as [t|]; [|now apply IH].
  apply negb_true_iff in Hc. rewrite Hc. now apply IH.
Qed.

Lemma tryCandidates_first (before after : list jsstring) (c t : jsstring) :
  forallb unclean before = true ->
  decodeFatal rt c buffer = Some t -> clean t = true ->
  tryCandidates rt (before ++ c :: after) buffer = Some t.
Proof.
  intros Hb Hd Hc. induction before as [|b before IH]; simpl.
  - now rewrite Hd, Hc.
  - simpl in Hb. apply andb_true_iff in Hb as [Hb1 Hb2].
    unfold unclean, decodesCleanly in Hb1.
    destruct (decodeFatal rt b buffer) as [tb|]; [|now apply IH].
    apply negb_true_iff in Hb1. rewrite Hb1. now apply IH.
Qed.
End CharsetFacts.

(** C2, as the code has it.  The [meta] tag is looked at only when the
    Content-Type header declares no charset.  With a declared charset the
    text is its strict decode, or the candidate trial when that fails, and
    no scan takes place.  Without one, if the text of the candidate trial
    has a [meta] charset whose lower-cased value is not [utf-8] and the text
    has no replacement character, the original bytes are decoded strictly
    under that charset and the result replaces the text exactly when the
    decode succeeds without a replacement character; in every other case
    the text of the candidate trial is kept. *)
Theorem meta_check_only_without_header
        (rt : Runtime) (contentType : jsstring) (buffer : bytes) :
  let html := tryDecodeWithCharsets rt buffer in
  (forall charset, detectedCharset contentType = Some charset ->
     resolveCharset rt contentType buffer =
       match decodeFatal rt charset buffer with
       | Some t => t
       | None => html
       end) /\
  (detectedCharset contentType = None ->
   forall m, metaCharset rt html = Some m -> m <> js "utf-8" ->
     clean html = true ->
     (forall t, decodeFatal rt m buffer = Some t -> clean t = true ->
        resolveCharset rt contentType buffer = t) /\
     (forall t, decodeFatal rt m buffer = Some t -> clean t = false ->
        resolveCharset rt contentType buffer = html) /\
     (decodeFatal rt m buffer = None ->
        resolveCharset rt contentType buffer = html)) /\
  (detectedCharset contentType = None ->
   metaCharset rt html = None \/ metaCharset rt html = Some (js "utf-8") \/
   clean html = false ->
   resolveCharset rt contentType buffer = html).
Proof.
  intros html. unfold resolveCharset. repeat split.
  - intros charset ->. reflexivity.
  - intros t Hd Hc. rewrite H. unfold metaRedecode. fold html. rewrite H0.
    apply jsstring_eqb_neq in H1. rewrite H1, H2. simpl. now rewrite Hd, Hc.
  - intros t Hd Hc. rewrite H. unfold metaRedecode. fold html. rewrite H0.
    apply jsstring_eqb_neq in H1. rewrite H1, H2. simpl. now rewrite Hd, Hc.
  - intros Hd. rewrite H. unfold metaRedecode. fold html. rewrite H0.
    apply jsstring_eqb_neq in H1. rewrite H1, H2. simpl. now rewrite Hd.
  - intros -> [Hm | [Hm | Hc]]; unfold metaRedecode; fold html.
    + now rewrite Hm.
    + rewrite Hm. now rewrite jsstring_eqb_refl.
    + destruct (metaCharset rt html); [|reflexivity].
      rewrite Hc. now rewrite andb_false_r.
Qed.

Lemma meta_check_only_without_header_witness :
  let rt := Scenario.rt_offline in
  let html := tryDecodeWithCharsets rt Scenario.meta_page in
  detectedCharset (js "text/html") = None /\
  metaCharset rt html = Some (js "shift_jis") /\
  js "shift_jis" <> js "utf-8" /\
  clean html = true /\
  decodeFatal rt (js "shift_jis") Scenario.meta_page = Some Scenario.meta_text_sjis /\
  clean Scenario.meta_text_sjis = true /\
  resolveCharset rt (js "text/html") Scenario.meta_page = Scenario.meta_text_sjis.
Proof.
  intros rt html.
  assert (N : js "shift_jis" <> js "utf-8") by (vm_compute; discriminate).
  do 2 (split; [vm_compute; reflexivity|]). split; [exact N|].
  do 3 (split; [vm_compute; reflexivity|]).
  exact (proj1
           (proj1 (proj2 (meta_check_only_without_header
                            rt (js "text/html") Scenario.meta_page))
                  eq_refl (js "shift_jis") eq_refl N eq_refl)
           Scenario.meta_text_sjis eq_refl eq_refl).
Defined.

(** C2 fails when the header declares a charset: with
    [charset=utf-8] in the header the bytes decode strictly as UTF-8, the
    text declares [shift_jis] in a [meta] tag, that charset differs from
    the one used and is not UTF-8, the strict Shift_JIS decode of the bytes
    succeeds without a replacement character, and yet the handler keeps the
    UTF-8 text. *)
Lemma meta_ignored_with_header :
  let rt := Scenario.rt_offline in
  let contentType := js "text/html; charset=utf-8" in
  detectedCharset contentType = Some (js "utf-8") /\
  decodeFatal rt (js "utf-8") Scenario.meta_page = Some Scenario.meta_text_utf8 /\
  metaCharset rt Scenario.meta_text_utf8 = Some (js "shift_jis") /\
  decodeFatal rt (js "shift_jis") Scenario.meta_page = Some Scenario.meta_text_sjis /\
  clean Scenario.meta_text_sjis = true /\
  resolveCharset rt contentType Scenario.meta_page = Scenario.meta_text_utf8 /\
  Scenario.meta_text_utf8 <> Scenario.meta_text_sjis.
Proof.
  intros rt contentType.
  repeat split; try (vm_compute; reflexivity).
  vm_compute. discriminate.
Qed.

(** C3, as the code has it.  A charset declared in the header is taken
    whenever its strict decode succeeds, replacement characters or not;
    when it fails, and when none is declared, the candidates utf-8,
    shift_jis, euc-jp, iso-2022-jp are tried in this order and the first one
    whose strict decode succeeds without a replacement character gives the
    text; when there is none the text is the lossy UTF-8 decode, which
    cannot fail.  (Without a declared charset the check of claim C2 is then
    applied to that text.) *)
Theorem resolver_priority
        (rt : Runtime) (contentType : jsstring) (buffer : bytes) :
  let unclean := fun c => negb (decodesCleanly rt c buffer) in
  (forall charset t, detectedCharset contentType = Some charset ->
     decodeFatal rt charset buffer = Some t ->
     resolveCharset rt contentType buffer = t) /\
  (forall charset, detectedCharset contentType = Some charset ->
     decodeFatal rt charset buffer = None ->
     resolveCharset rt contentType buffer = tryDecodeWithCharsets rt buffer) /\
  (detectedCharset contentType = None ->
     resolveCharset rt contentType buffer =
       metaRedecode rt (tryDecodeWithCharsets rt buffer) buffer) /\
  (forall before c after t,
     CHARSETS = before ++ c :: after ->
     forallb unclean before = true ->
     decodeFatal rt c buffer = Some t -> clean t = true ->
     tryDecodeWithCharsets rt buffer = t) /\
  (forallb unclean CHARSETS = true ->
     tryDecodeWithCharsets rt buffer = decodeUtf8Lossy rt buffer).
Proof.
  intros unclean. unfold resolveCharset, tryDecodeWithCharsets. repeat split.
  - intros charset t -> ->. reflexivity.
  - intros charset -> ->. reflexivity.
  - intros ->. reflexivity.
  - intros before c after t -> Hb Hd Hc.
    now rewrite (tryCandidates_first rt buffer before after c t Hb Hd Hc).
  - intros H. now rewrite (tryCandidates_none rt buffer CHARSETS H).
Qed.

Lemma resolver_priority_witness :
  let rt := Scenario.rt_offline in
  let buffer := [0xC3; 0xA9] in
  CHARSETS = [] ++ js "utf-8" :: [js "shift_jis"; js "euc-jp"; js "iso-2022-jp"] /\
  decodeFatal rt (js "utf-8") buffer = Some (js "é") /\
  clean (js "é") = true /\
  decodesCleanly rt (js "shift_jis") buffer = true /\
  tryDecodeWithCharsets rt buffer = js "é".
Proof.
  intros rt buffer.
  do 4 (split; [vm_compute; reflexivity|]).
  exact (proj1 (proj2 (proj2 (proj2 (resolver_priority rt (js "text/html") buffer))))
           [] (js "utf-8") [js "shift_jis"; js "euc-jp"; js "iso-2022-jp"]
           (js "é") eq_refl eq_refl eq_refl eq_refl).
Defined.

(** C3 fails when the declared charset decodes strictly with a
    replacement character: for the bytes FD FF under [charset=utf-16le] no
    candidate decodes cleanly (the declared one gives U+FFFD, the four
    fixed ones fail), and the text is the strict UTF-16LE decode, one
    U+FFFD, not the lossy UTF-8 decode, two of them. *)
Lemma declared_charset_taken_with_placeholder :
  let rt := Scenario.rt_offline in
  let contentType := js "text/html; charset=utf-16le" in
  detectedCharset contentType = Some (js "utf-16le") /\
  decodesCleanly rt (js "utf-16le") Scenario.fffd_le = false /\
  forallb (fun c => negb (decodesCleanly rt c Scenario.fffd_le)) CHARSETS = true /\
  resolveCharset rt contentType Scenario.fffd_le = [REPLACEMENT] /\
  decodeUtf8Lossy rt Scenario.fffd_le = [REPLACEMENT; REPLACEMENT] /\
  resolveCharset rt contentType Scenario.fffd_le
    <> decodeUtf8Lossy rt Scenario.fffd_le.
Proof.
  intros rt contentType.
  repeat split; try (vm_compute; reflexivity).
  vm_compute. discriminate.
Qed.

(* ================================================================= *)
(** ** The replies of the handler (claims C4, C5, C9 and C10) *)

Section Replies.
Variable rt : Runtime.
Variables (url : jsstring) (u : URL).
Hypothesis url_given : truthy url = true.
Hypothesis url_parsed : parseURL rt url = Some u.

Lemma POST_unfold :
  run_POST rt (Body (Some url)) =
    match analyze rt url (hostname u) [] with
    | (Some reply, log) => (Some reply, log)
    | (None, log) => (Some (fallbackNote url (hostname u) (pathname u)), log)
    end.
Proof.
  unfold run_POST, POST, try_catch, bind, requestUrl, ret.
  rewrite url_given, url_parsed. simpl.
  destruct (analyze rt url (hostname u) []) as [[reply|] log]; reflexivity.
Qed.

(** A failed fetch is answered with the fallback note. *)
Lemma POST_fetch_fails :
  fetch_fails rt url ->
  run_POST rt (Body (Some url)) =
    (Some (fallbackNote url (hostname u) (pathname u)), [PageRequest url]).
Proof.
  intros Hf. rewrite POST_unfold. unfold analyze, bind, fetch, fetch_fails in *.
  simpl. destruct (fetchPage rt url) as [response|]; [|reflexivity].
  rewrite Hf. reflexivity.
Qed.

Section Fetched.
Variables (response : Response) (buffer : bytes).
Hypothesis fetched : fetchPage rt url = Some response.
Hypothesis status_ok : ok (status response) = true.
Hypothesis body_read : arrayBuffer response = Some buffer.

Let html := resolveCharset rt (contentTypeOf response) buffer.
Let pageTitle := extractTitle html (hostname u).
Let bodyText := extractBody html.

Lemma POST_fetched :
  run_POST rt (Body (Some url)) =
    match summarize rt url pageTitle bodyText [PageRequest url] with
    | (Some reply, log) => (Some reply, log)
    | (None, log) => (Some (fallbackNote url (hostname u) (pathname u)), log)
    end.
Proof.
  rewrite POST_unfold. unfold analyze, bind, fetch, lift, ret. simpl.
  rewrite fetched, status_ok, body_read. simpl. reflexivity.
Qed.

(** Without a credential the reply is the excerpt note and the completion
    service is not called. *)
Lemma POST_no_credential :
  no_credential rt ->
  run_POST rt (Body (Some url)) =
    (Some (Note pageTitle (excerptContent pageTitle url bodyText)),
     [PageRequest url]).
Proof.
  intros Hn. rewrite POST_fetched. unfold no_credential in Hn. unfold summarize.
  destruct (OPENAI_API_KEY rt) as [key|]; [rewrite Hn|]; reflexivity.
Qed.

(** So is it when the completion service answers with a status outside
    200-299. *)
Lemma POST_provider_refuses key answer :
  OPENAI_API_KEY rt = Some key -> truthy key = true ->
  fetchProvider rt key (providerMessage pageTitle url bodyText) = Some answer ->
  ok (providerStatus answer) = false ->
  run_POST rt (Body (Some url)) =
    (Some (Note pageTitle (excerptContent pageTitle url bodyText)),
     [PageRequest url;
      ProviderRequest key (providerMessage pageTitle url bodyText)]).
Proof.
  intros Hk Ht Hp Hs. rewrite POST_fetched. unfold summarize, bind, fetchCompletion.
  rewrite Hk, Ht, Hp, Hs. reflexivity.
Qed.

(** When the completion request itself is rejected, the exception reaches
    the handler of fetch failures: the reply is the fallback note, and the
    title and excerpt already extracted are dropped. *)
Lemma POST_provider_unreachable key :
  OPENAI_API_KEY rt = Some key -> truthy key = true ->
  fetchProvider rt key (providerMessage pageTitle url bodyText) = None ->
  run_POST rt (Body (Some url)) =
    (Some (fallbackNote url (hostname u) (pathname u)),
     [PageRequest url;
      ProviderRequest key (providerMessage pageTitle url bodyText)]).
Proof.
  intros Hk Ht Hp. rewrite POST_fetched. unfold summarize, bind, fetchCompletion.
  rewrite Hk, Ht, Hp. reflexivity.
Qed.

End Fetched.
End Replies.

(** C4, at a request where the code departs from it.  The page is
    fetched and read ("Hello", "Hello World"), a credential is set, and the
    completion request is rejected at the transport level: the handler
    answers with the default fallback note, which says the content could
    not be retrieved, and not with the excerpt note. *)
Theorem provider_transport_error_loses_excerpt :
  let rt := Scenario.rt_provider_down in
  let url := Scenario.hello_url in
  run_POST rt (Body (Some url)) =
    (Some (defaultNote url (js "example.com")),
     [PageRequest url;
      ProviderRequest (js "sk-test")
        (providerMessage (js "Hello") url (js "Hello World"))]) /\
  defaultNote url (js "example.com")
    <> Note (js "Hello") (excerptContent (js "Hello") url (js "Hello World")).
Proof.
  split; [vm_compute; reflexivity|].
  vm_compute. discriminate.
Qed.

(** C5, as the code has it.  When the page at
    [https://example.com/page] is fetched, its text is
    [<html><head><title>Hello</title></head><body>World</body></html>] and
    no credential is set, the reply has the title [Hello] and a content
    that contains [World] and contains the URL exactly twice: once on the
    [URL:] line and once as the target of the link. *)
Theorem hello_scenario (rt : Runtime) (u : URL) (response : Response)
        (buffer : bytes) :
  parseURL rt Scenario.hello_url = Some u ->
  fetchPage rt Scenario.hello_url = Some response ->
  ok (status response) = true ->
  arrayBuffer response = Some buffer ->
  resolveCharset rt (contentTypeOf response) buffer = Scenario.hello_html ->
  no_credential rt ->
  exists content,
    run_POST rt (Body (Some Scenario.hello_url))
      = (Some (Note (js "Hello") content), [PageRequest Scenario.hello_url]) /\
    includes (js "World") content = true /\
    occurrences Scenario.hello_url content = 2%nat.
Proof.
  intros Hp Hf Hs Hb Hr Hn.
  rewrite (POST_no_credential rt Scenario.hello_url u eq_refl Hp
             response buffer Hf Hs Hb Hn).
  rewrite Hr.
  assert (Et : extractTitle Scenario.hello_html (hostname u) = js "Hello")
    by (vm_compute; reflexivity).
  rewrite Et. eexists. split; [reflexivity|].
  split; vm_compute; reflexivity.
Qed.

Lemma hello_scenario_witness :
  let rt := Scenario.rt_hello in
  let response := Reference.page (Some (js "text/html")) Scenario.hello_page in
  no_credential rt /\
  resolveCharset rt (contentTypeOf response) Scenario.hello_page
    = Scenario.hello_html /\
  exists content,
    run_POST rt (Body (Some Scenario.hello_url))
      = (Some (Note (js "Hello") content), [PageRequest Scenario.hello_url]) /\
    includes (js "World") content = true /\
    occurrences Scenario.hello_url content = 2%nat.
Proof.
  intros rt response.
  split; [exact I|]. split; [vm_compute; reflexivity|].
  exact (hello_scenario rt
           {| protocol := js "https:"; hostname := js "example.com";
              pathname := js "/page" |}
           response Scenario.hello_page
           eq_refl eq_refl eq_refl eq_refl eq_refl I).
Defined.

(** C5 fails on the count: in the reply to the scenario the URL occurs
    twice, not once. *)
Lemma hello_url_occurs_twice :
  exists content,
    run_POST Scenario.rt_hello (Body (Some Scenario.hello_url))
      = (Some (Note (js "Hello") content), [PageRequest Scenario.hello_url]) /\
    includes (js "World") content = true /\
    occurrences Scenario.hello_url content <> 1%nat.
Proof.
  eexists. split; [vm_compute; reflexivity|].
  split; [vm_compute; reflexivity|]. vm_compute. discriminate.
Qed.

(* ----------------------------------------------------------------- *)
(** *** The note for a repository *)

Lemma join_two_prefix (sep a b : jsstring) (rest : list jsstring) :
  exists tail, join sep (a :: b :: rest) = (a ++ sep ++ b) ++ tail.
Proof.
  cbn [join]. destruct rest as [|c rest].
  - exists []. now rewrite app_nil_r.
  - exists (sep ++ join sep (c :: rest)). now rewrite <- !app_assoc.
Qed.

(** C9, as the code has it.  When the fetch fails, the host name
    contains [github.com] and does not contain [slack.com], and the path
    has at least two non-empty segments, the reply is a note whose title is
    [GitHub - ] followed by all the segments joined with [/], so that it
    contains [owner/repo], and whose content has the line
    [リポジトリ: owner/repo] made of the first two segments. *)
Theorem github_note_names_owner_repo
        (rt : Runtime) (url : jsstring) (u : URL)
        (owner repo : jsstring) (rest : list jsstring) :
  truthy url = true ->
  parseURL rt url = Some u ->
  fetch_fails rt url ->
  includes (js "github.com") (hostname u) = true ->
  includes (js "slack.com") (hostname u) = false ->
  pathParts (pathname u) = owner :: repo :: rest ->
  exists title content,
    run_POST rt (Body (Some url)) = (Some (Note title content), [PageRequest url]) /\
    title = js "GitHub - " ++ join (js "/") (owner :: repo :: rest) /\
    includes (owner ++ js "/" ++ repo) title = true /\
    includes (js "リポジトリ: " ++ owner ++ js "/" ++ repo) content = true.
Proof.
  intros Ht Hp Hf Hg Hs Hparts.
  rewrite (POST_fetch_fails rt url u Ht Hp Hf).
  unfold fallbackNote. rewrite Hs, Hg, Hparts. cbn [length Nat.leb andb].
  unfold githubNote. do 2 eexists. split; [reflexivity|]. split; [reflexivity|].
  split.
  - destruct (join_two_prefix (js "/") owner repo rest) as (tail & ->).
    apply includes_infix.
  - cbn [nth].
    match goal with
    | |- includes ?sub (?a ++ NL ++ NL ++ ?b ++ ?url ++ NL ++ NL ++ ?l ++ owner ++ ?sl ++ repo ++ ?z) = true =>
        replace (a ++ NL ++ NL ++ b ++ url ++ NL ++ NL ++ l ++ owner ++ sl ++ repo ++ z)
          with ((a ++ NL ++ NL ++ b ++ url ++ NL ++ NL) ++ (l ++ owner ++ sl ++ repo) ++ z)
          by (now rewrite <- !app_assoc)
    end.
    apply includes_infix.
Qed.

Lemma github_note_names_owner_repo_witness :
  let rt := Scenario.rt_offline in
  let url := Scenario.github_url in
  fetch_fails rt url /\
  exists title content,
    run_POST rt (Body (Some url)) = (Some (Note title content), [PageRequest url]) /\
    title = js "GitHub - " ++ join (js "/") [js "owner"; js "repo"] /\
    includes (js "owner" ++ js "/" ++ js "repo") title = true /\
    includes (js "リポジトリ: " ++ js "owner" ++ js "/" ++ js "repo") content = true.
Proof.
  intros rt url. split; [exact I|].
  exact (github_note_names_owner_repo rt url
           {| protocol := js "https:"; hostname := js "github.com";
              pathname := js "/owner/repo" |}
           (js "owner") (js "repo") []
           eq_refl eq_refl I eq_refl eq_refl eq_refl).
Defined.

(** C9 fails for a host name that carries both markers: for
    [https://github.com.slack.com/owner/repo] the fetch fails, the host
    name contains [github.com] and the path has the two segments [owner]
    and [repo], but the test for [slack.com] comes first and the title of
    the note is [Slack - repo], which does not name [owner/repo]. *)
Lemma slack_marker_comes_first :
  fetch_fails Scenario.rt_offline Scenario.both_markers_url /\
  option_map (fun u => includes (js "github.com") (hostname u))
             (parseURL Scenario.rt_offline Scenario.both_markers_url)
    = Some true /\
  option_map (fun u => pathParts (pathname u))
             (parseURL Scenario.rt_offline Scenario.both_markers_url)
    = Some [js "owner"; js "repo"] /\
  exists content,
    run_POST Scenario.rt_offline (Body (Some Scenario.both_markers_url))
      = (Some (Note (js "Slack - repo") content),
         [PageRequest Scenario.both_markers_url]) /\
    includes (js "owner/repo") (js "Slack - repo") = false.
Proof.
  split; [exact I|].
  do 2 (split; [vm_compute; reflexivity|]).
  eexists. split; vm_compute; reflexivity.
Qed.

(** C10.  When the page is fetched and no credential is set, the content
    of the reply is the template filled with the first 500 code units of
    the body excerpt, itself at most 3000 long, followed by three dots; an
    excerpt shorter than 500 is taken whole and the dots follow it all the
    same.  The completion service is not called. *)
Theorem excerpt_is_first_500_then_dots
        (rt : Runtime) (url : jsstring) (u : URL) (response : Response)
        (buffer : bytes) :
  truthy url = true ->
  parseURL rt url = Some u ->
  fetchPage rt url = Some response ->
  ok (status response) = true ->
  arrayBuffer response = Some buffer ->
  no_credential rt ->
  let html := resolveCharset rt (contentTypeOf response) buffer in
  let title := extractTitle html (hostname u) in
  let body := extractBody html in
  let content (shown : jsstring) :=
    js "# " ++ title ++ NL ++ NL ++ js "URL: " ++ url ++ NL ++ NL ++
    js "## 概要" ++ NL ++ NL ++ shown ++ js "..." ++ NL ++ NL ++
    js "[元のページを開く](" ++ url ++ js ")" in
  (length body <= 3000)%nat /\
  run_POST rt (Body (Some url))
    = (Some (Note title (content (firstn 500 body))), [PageRequest url]) /\
  ((length body < 500)%nat ->
   run_POST rt (Body (Some url))
     = (Some (Note title (content body)), [PageRequest url])).
Proof.
  intros Ht Hp Hf Hs Hb Hn html title body content.
  assert (E : run_POST rt (Body (Some url))
              = (Some (Note title (content (firstn 500 body))), [PageRequest url])).
  { rewrite (POST_no_credential rt url u Ht Hp response buffer Hf Hs Hb Hn).
    reflexivity. }
  split; [exact (extractBody_length html)|]. split; [exact E|].
  intros Hshort. rewrite E. rewrite firstn_all2 by lia. reflexivity.
Qed.

Lemma excerpt_is_first_500_then_dots_witness :
  let rt := Scenario.rt_hello in
  let url := Scenario.hello_url in
  no_credential rt /\
  (length (js "Hello World") < 500)%nat /\
  run_POST rt (Body (Some url))
    = (Some (Note (js "Hello")
                  (js "# Hello" ++ NL ++ NL ++ js "URL: " ++ url ++ NL ++ NL ++
                   js "## 概要" ++ NL ++ NL ++ js "Hello World..." ++ NL ++ NL ++
                   js "[元のページを開く](" ++ url ++ js ")")),
       [PageRequest url]).
Proof.
  intros rt url. split; [exact I|]. split; [vm_compute; lia|].
  pose proof (excerpt_is_first_500_then_dots rt url
                {| protocol := js "https:"; hostname := js "example.com";
                   pathname := js "/page" |}
                (Reference.page (Some (js "text/html")) Scenario.hello_page)
                Scenario.hello_page eq_refl eq_refl eq_refl eq_refl eq_refl I)
    as (_ & E & _).
  rewrite E. vm_compute. reflexivity.
Defined.

(* ================================================================= *)
(** ** Entities (claims C6 and C7) *)

(* ----------------------------------------------------------------- *)
(** *** Where the entity pattern matches *)

Section StarFacts.
Variable p : N -> bool.
Variable k : nat -> jsstring -> option Regex.result.

Lemma star_stop (n : nat) (r : jsstring) :
  match r with c :: _ => p c = false | [] => True end ->
  star p k n r = k n r.
Proof. destruct r as [|c r]; simpl; [reflexivity|]. now intros ->. Qed.

Lemma star_app (a r : jsstring) : forall n res,
  forallb p a = true ->
  star p k (n + length a) r = Some res ->
  star p k n (a ++ r) = Some res.
Proof.
  induction a as [|c a IH]; intros n res Ha Hk.
  - simpl in *. now rewrite Nat.add_0_r in Hk.
  - simpl in Ha. apply andb_true_iff in Ha as [Hc Ha].
    cbn [app star]. rewrite Hc.
    rewrite (IH (S n) res Ha); [reflexivity|].
    simpl length in Hk. now rewrite Nat.add_succ_r in Hk.
Qed.
End StarFacts.

Lemma RE_ENTITY_eq :
  RE_ENTITY = [One (lit 38); Opt (lit 35); One alnum; Star alnum; One (lit 59)].
Proof. reflexivity. Qed.

Lemma alnum_not (c : N) : alnum c = true -> (c =? 35) = false /\ (c =? 59) = false /\ (c =? 38) = false.
Proof.
  intros H. repeat split; apply N.eqb_neq; intros ->; vm_compute in H; discriminate.
Qed.

Lemma entity_token_matches (hash : bool) (c : N) (name rest : jsstring) :
  forallb alnum (c :: name) = true ->
  let tok := 38 :: (if hash then [35] else []) ++ (c :: name) ++ [59] in
  match_len RE_ENTITY (tok ++ rest) = Some (length tok).
Proof.
  intros Hn tok. simpl in Hn. apply andb_true_iff in Hn as [Hc Hn].
  destruct (alnum_not c Hc) as (H35 & _ & _).
  assert (Hstar : forall n,
             star alnum (fun n' s' => run [One (lit 59)] n' 0 None s') n
                  (name ++ 59 :: rest) = Some (S (n + length name), None)).
  { intros n. apply star_app; [exact Hn|].
    rewrite star_stop by (vm_compute; reflexivity).
    cbn [run]. unfold lit. rewrite N.eqb_refl. reflexivity. }
  unfold match_len, exec_at. rewrite RE_ENTITY_eq. subst tok.
  destruct hash; cbn [app run]; unfold lit at 1; rewrite N.eqb_refl.
  - unfold lit at 1. rewrite N.eqb_refl. rewrite Hc.
    rewrite <- app_assoc. cbn [app]. rewrite Hstar. cbn [option_map fst length].
    rewrite length_app. simpl. f_equal. lia.
  - unfold lit at 1. rewrite H35. rewrite Hc.
    rewrite <- app_assoc. cbn [app]. rewrite Hstar. cbn [option_map fst length].
    rewrite length_app. simpl. f_equal. lia.
Qed.

Lemma entity_no_match (c : N) (s : jsstring) :
  c <> 38 -> match_len RE_ENTITY (c :: s) = None.
Proof.
  intros H. unfold match_len, exec_at. rewrite RE_ENTITY_eq. cbn [run].
  unfold lit at 1. apply N.eqb_neq in H. now rewrite H.
Qed.

Section ReplaceSteps.
Variable pat : pattern.
Variable f : jsstring -> jsstring.

Lemma replace_go_skip (a rest : jsstring) :
  replace_go pat f (length a) (a ++ rest) = replace_go pat f 0 rest.
Proof. induction a as [|c a IH]; [reflexivity|exact IH]. Qed.

Lemma replace_all_match (c : N) (tok rest : jsstring) :
  match_len pat ((c :: tok) ++ rest) = Some (length (c :: tok)) ->
  replace_all pat f ((c :: tok) ++ rest)
    = f (c :: tok) ++ replace_all pat f rest.
Proof.
  intros H. unfold replace_all. cbn [app replace_go] in *. rewrite H.
  cbn [length]. rewrite replace_go_skip.
  change (c :: tok ++ rest) with ((c :: tok) ++ rest).
  change (S (length tok)) with (length (c :: tok)).
  now rewrite firstn_app, Nat.sub_diag, firstn_all, firstn_O, app_nil_r.
Qed.

Lemma replace_all_no_match (c : N) (s : jsstring) :
  match_len pat (c :: s) = None ->
  replace_all pat f (c :: s) = c :: replace_all pat f s.
Proof. intros H. unfold replace_all. cbn [replace_go]. now rewrite H. Qed.
End ReplaceSteps.

Lemma decode_plain (c : N) (s : jsstring) :
  c <> 38 -> decodeHtmlEntities (c :: s) = c :: decodeHtmlEntities s.
Proof.
  intros H. apply replace_all_no_match. now apply entity_no_match.
Qed.

Lemma decode_token (hash : bool) (c : N) (name rest : jsstring) :
  forallb alnum (c :: name) = true ->
  let tok := 38 :: (if hash then [35] else []) ++ (c :: name) ++ [59] in
  decodeHtmlEntities (tok ++ rest) = replaceEntity tok ++ decodeHtmlEntities rest.
Proof.
  intros Hn tok. apply replace_all_match.
  exact (entity_token_matches hash c name rest Hn).
Qed.

(* ----------------------------------------------------------------- *)
(** *** What the callback returns *)

Lemma entityMap_eq :
  entityMap =
    [ ([38; 97; 109; 112; 59], [38]);
      ([38; 108; 116; 59], [60]);
      ([38; 103; 116; 59], [62]);
      ([38; 113; 117; 111; 116; 59], [34]);
      ([38; 35; 51; 57; 59], [39]);
      ([38; 97; 112; 111; 115; 59], [39]);
      ([38; 110; 98; 115; 112; 59], [32]) ].
Proof. reflexivity. Qed.

(** Among the tokens that start with [&#] only [&#39;] is in the table. *)
Lemma lookup_numeric (body : jsstring) :
  lookup entityMap (38 :: 35 :: body) =
    if jsstring_eqb [51; 57; 59] body then Some [39] else None.
Proof. rewrite entityMap_eq. reflexivity. Qed.

(** Tests on ranges of code units, read as linear arithmetic. *)
Ltac ranges :=
  unfold is_hex, is_digit, alnum, is_space, in_range in *;
  rewrite ?orb_true_iff, ?orb_false_iff, ?andb_true_iff, ?andb_false_iff,
    ?N.leb_le, ?N.leb_gt, ?N.eqb_eq, ?N.eqb_neq in *;
  lia.

Lemma is_digit_alnum (c : N) : is_digit c = true -> alnum c = true.
Proof. intros H. ranges. Qed.

Lemma is_hex_alnum (c : N) : is_hex c = true -> alnum c = true.
Proof. intros H. ranges. Qed.

Lemma forallb_impl (p q : N -> bool) (l : jsstring) :
  (forall c, p c = true -> q c = true) -> forallb p l = true -> forallb q l = true.
Proof.
  intros H. induction l as [|c l IH]; simpl; [reflexivity|].
  intros E. apply andb_true_iff in E as [E1 E2].
  now rewrite (H c E1), IH.
Qed.

Section Digits.
Variable radix : N.
Variable digit : N -> N.
Variable is_d : N -> bool.
Hypothesis digit_ok : forall c, is_d c = true -> digit_value radix c = Some (digit c).

Lemma digits_prefix_acc (ds : jsstring) : forall a,
  forallb is_d ds = true ->
  digits_prefix radix (Some a) ds
    = Some (fold_left (fun a c => a * radix + digit c) ds a).
Proof.
  induction ds as [|c ds IH]; intros a H; simpl; [reflexivity|].
  simpl in H. apply andb_true_iff in H as [Hc H].
  rewrite (digit_ok c Hc). now apply IH.
Qed.

Lemma digits_prefix_all (c : N) (ds : jsstring) :
  forallb is_d (c :: ds) = true ->
  digits_prefix radix None (c :: ds) = Some (number_of radix digit (c :: ds)).
Proof.
  intros H. simpl in H. apply andb_true_iff in H as [Hc H].
  cbn [digits_prefix]. rewrite (digit_ok c Hc).
  rewrite (digits_prefix_acc ds _ H). unfold number_of. cbn [fold_left].
  now rewrite N.mul_0_l, N.add_0_l.
Qed.
End Digits.

Lemma dec_digit_ok (c : N) :
  is_digit c = true -> digit_value 10 c = Some (dec_digit c).
Proof.
  intros H. unfold digit_value, dec_digit. fold (is_digit c). rewrite H.
  cbv beta iota zeta.
  assert (E : (c - 48 <? 10) = true) by (apply N.ltb_lt; ranges).
  now rewrite E.
Qed.

Lemma hex_digit_ok (c : N) :
  is_hex c = true -> digit_value 16 c = Some (hex_digit c).
Proof.
  intros H. unfold digit_value, hex_digit. fold (is_digit c).
  destruct (is_digit c) eqn:E1; cbv beta iota zeta.
  - assert (E : (c - 48 <? 16) = true) by (apply N.ltb_lt; ranges).
    now rewrite E.
  - destruct (in_range 97 102 c) eqn:E2.
    + assert (E3 : in_range 97 122 c = true) by (clear - E2; ranges).
      rewrite E3. cbv beta iota zeta.
      assert (E : (c - 97 + 10 <? 16) = true) by (apply N.ltb_lt; ranges).
      now rewrite E.
    + assert (E3 : in_range 97 122 c = false) by (clear - H E1 E2; ranges).
      assert (E4 : in_range 65 90 c = true) by (clear - H E1 E2; ranges).
      rewrite E3, E4. cbv beta iota zeta.
      assert (E : (c - 65 + 10 <? 16) = true) by (apply N.ltb_lt; ranges).
      now rewrite E.
Qed.

(** [String.fromCharCode] of a number below 2^16 is that code unit. *)
Lemma fromCharCode_small (v : N) :
  v < 65536 ->
  fromCharCode (match round_double v with
                | Fin z => Fin z
                | other => other
                end) = [v].
Proof.
  intros H. unfold round_double.
  assert (E : (v <? 2 ^ 53) = true).
  { apply N.ltb_lt. change (2 ^ 53) with 9007199254740992. lia. }
  rewrite E. unfold fromCharCode. f_equal.
  rewrite Z.mod_small by lia. apply N2Z.id.
Qed.

(** A first character that is a digit is neither white space nor a sign,
    and no [0x] prefix can start a string of digits. *)
Lemma parseInt_digits (radix : N) (digit : N -> N) (is_d : N -> bool)
      (c : N) (ds : jsstring) :
  (forall x, is_d x = true -> digit_value radix x = Some (digit x)) ->
  (forall x, is_d x = true -> alnum x = true) ->
  (forall x, is_d x = true -> (x =? 120) = false /\ (x =? 88) = false) ->
  forallb is_d (c :: ds) = true ->
  number_of radix digit (c :: ds) < 65536 ->
  fromCharCode (parseInt (c :: ds) radix) = [number_of radix digit (c :: ds)].
Proof.
  intros Hv Ha Hx Hall Hsmall.
  assert (Hc : is_d c = true) by (simpl in Hall; now apply andb_true_iff in Hall).
  assert (Hs : is_space c = false).
  { specialize (Ha c Hc). clear - Ha. ranges. }
  assert (Hm : (c =? 45) = false /\ (c =? 43) = false).
  { specialize (Ha c Hc). split; apply N.eqb_neq; intros ->;
      vm_compute in Ha; discriminate. }
  destruct Hm as [Hm Hp].
  unfold parseInt. cbn [trimStart]. rewrite Hs.
  change (ch "-") with 45. change (ch "+") with 43.
  change (ch "0") with 48. change (ch "x") with 120. change (ch "X") with 88.
  rewrite Hm, Hp.
  assert (Hfin : fromCharCode
                   match digits_prefix radix None (c :: ds) with
                   | Some n =>
                       match round_double n with
                       | Fin z => Fin z
                       | other => other
                       end
                   | None => NaN
                   end = [number_of radix digit (c :: ds)]).
  { rewrite (digits_prefix_all radix digit is_d Hv c ds Hall).
    now apply fromCharCode_small. }
  destruct (radix =? 16); [|exact Hfin].
  destruct ds as [|x r]; [exact Hfin|].
  assert (Hx' : is_d x = true).
  { simpl in Hall. apply andb_true_iff in Hall as [_ Hall].
    now apply andb_true_iff in Hall. }
  destruct (Hx x Hx') as [E1 E2]. rewrite E1, E2, andb_false_r. exact Hfin.
Qed.

Lemma not_x_digit (x : N) :
  is_digit x = true -> (x =? 120) = false /\ (x =? 88) = false.
Proof. intros H. split; ranges. Qed.

Lemma not_x_hex (x : N) :
  is_hex x = true -> (x =? 120) = false /\ (x =? 88) = false.
Proof. intros H. split; ranges. Qed.

(** An unknown name is returned as it is. *)
Lemma replaceEntity_unknown_name (c : N) (name : jsstring) :
  alnum c = true ->
  lookup entityMap (38 :: c :: name ++ [59]) = None ->
  replaceEntity (38 :: c :: name ++ [59]) = 38 :: c :: name ++ [59].
Proof.
  intros Hc Hl. unfold replaceEntity. rewrite Hl.
  change (js "&#") with [38; 35]. cbn [startsWith].
  destruct (alnum_not c Hc) as (H35 & _ & _).
  rewrite N.eqb_sym in H35. rewrite H35. now rewrite andb_false_r.
Qed.

Lemma slice_of_reference (body : jsstring) :
  slice_2_m1 (38 :: 35 :: body ++ [59]) = body.
Proof.
  unfold slice_2_m1. cbn [skipn length]. rewrite length_app. cbn [length].
  replace (S (S (length body + 1)) - 3)%nat with (length body) by lia.
  now rewrite firstn_app, Nat.sub_diag, firstn_all, firstn_O, app_nil_r.
Qed.

(** A decimal reference below 2^16 is replaced by the code unit it
    denotes. *)
Lemma replaceEntity_decimal (c : N) (ds : jsstring) :
  forallb is_digit (c :: ds) = true ->
  number_of 10 dec_digit (c :: ds) < 65536 ->
  replaceEntity (38 :: 35 :: (c :: ds) ++ [59]) = [number_of 10 dec_digit (c :: ds)].
Proof.
  intros Hall Hsmall. unfold replaceEntity. rewrite lookup_numeric.
  destruct (jsstring_eqb [51; 57; 59] ((c :: ds) ++ [59])) eqn:E.
  - apply jsstring_eqb_eq in E.
    change [51; 57; 59] with ([51; 57] ++ [59]) in E.
    apply app_inj_tail in E as [<- _]. reflexivity.
  - change (js "&#") with [38; 35]. cbn [startsWith]. rewrite !N.eqb_refl.
    cbn [andb]. rewrite slice_of_reference.
    change (js "x") with [120]. cbn [app startsWith].
    assert (Hc : is_digit c = true)
      by (simpl in Hall; now apply andb_true_iff in Hall).
    destruct (not_x_digit c Hc) as [Hx _]. rewrite N.eqb_sym in Hx.
    rewrite Hx. cbn [andb].
    exact (parseInt_digits 10 dec_digit is_digit c ds
             dec_digit_ok is_digit_alnum not_x_digit Hall Hsmall).
Qed.

(** So is a hexadecimal reference written with a small [x]. *)
Lemma replaceEntity_hexadecimal (c : N) (hs : jsstring) :
  forallb is_hex (c :: hs) = true ->
  number_of 16 hex_digit (c :: hs) < 65536 ->
  replaceEntity (38 :: 35 :: (120 :: c :: hs) ++ [59])
    = [number_of 16 hex_digit (c :: hs)].
Proof.
  intros Hall Hsmall. unfold replaceEntity. rewrite lookup_numeric.
  cbn [app jsstring_eqb]. change (51 =? 120) with false. cbn [andb].
  change (js "&#") with [38; 35]. cbn [startsWith]. rewrite !N.eqb_refl.
  cbn [andb].
  change (38 :: 35 :: 120 :: c :: hs ++ [59])
    with (38 :: 35 :: (120 :: c :: hs) ++ [59]).
  rewrite slice_of_reference.
  change (js "x") with [120]. cbn [startsWith]. rewrite N.eqb_refl. cbn [andb].
  unfold slice_from. cbn [skipn].
  exact (parseInt_digits 16 hex_digit is_hex c hs
           hex_digit_ok is_hex_alnum not_x_hex Hall Hsmall).
Qed.

(* ----------------------------------------------------------------- *)
(** *** Decoding an encoded text, piece by piece *)

(** A name that is not in the table is kept as it is, and decoding goes on
    after it. *)
Lemma unknown_name_is_kept (c : N) (name rest : jsstring) :
  forallb alnum (c :: name) = true ->
  lookup entityMap (js "&" ++ (c :: name) ++ js ";") = None ->
  decodeHtmlEntities (js "&" ++ (c :: name) ++ js ";" ++ rest)
    = js "&" ++ (c :: name) ++ js ";" ++ decodeHtmlEntities rest.
Proof.
  intros Hall Hl.
  assert (Hc : alnum c = true)
    by (simpl in Hall; now apply andb_true_iff in Hall).
  change (js "&") with [38] in *. change (js ";") with [59] in *.
  pose proof (decode_token false c name rest Hall) as D. cbv zeta in D.
  cbn [app] in *. rewrite <- app_assoc in D. cbn [app] in D. rewrite D.
  rewrite (replaceEntity_unknown_name c name Hc Hl).
  cbn [app]. now rewrite <- app_assoc.
Qed.

(** A name of the table is replaced by its value. *)
Lemma named_entity_decoded (name value rest : jsstring) :
  In (name, value) entityMap ->
  decodeHtmlEntities (name ++ rest) = value ++ decodeHtmlEntities rest.
Proof.
  intros H. rewrite entityMap_eq in H. cbn [In] in H.
  repeat match goal with
         | H : _ \/ _ |- _ => destruct H as [H|H]
         | H : False |- _ => destruct H
         | H : (_, _) = (name, value) |- _ => injection H as <- <-
         end.
  - exact (decode_token false 97 [109; 112] rest eq_refl).
  - exact (decode_token false 108 [116] rest eq_refl).
  - exact (decode_token false 103 [116] rest eq_refl).
  - exact (decode_token false 113 [117; 111; 116] rest eq_refl).
  - exact (decode_token true 51 [57] rest eq_refl).
  - exact (decode_token false 97 [112; 111; 115] rest eq_refl).
  - exact (decode_token false 110 [98; 115; 112] rest eq_refl).
Qed.

(** C6, as the code has it.  When a text is written with plain
    characters other than the ampersand, names of the table, and decimal or
    small-[x] hexadecimal references to code units below 2^16, decoding
    gives back the text it stands for, each name standing for the value the
    table gives it; for [&nbsp;] that is the ordinary space U+0020. *)
Theorem entities_decoded_below_2_16 (ps : list piece) :
  Forall well_formed ps ->
  decodeHtmlEntities (flat_map render ps) = flat_map literal ps.
Proof.
  induction 1 as [|p ps Hp _ IH]; [reflexivity|].
  cbn [flat_map]. destruct p as [c|name value|ds|hs]; cbn [render literal].
  - cbn [app]. rewrite decode_plain by exact Hp. now rewrite IH.
  - rewrite (named_entity_decoded name value _ Hp). now rewrite IH.
  - destruct Hp as (Hne & Hall & Hsmall).
    destruct ds as [|c ds]; [contradiction|].
    change (js "&#") with [38; 35]. change (js ";") with [59].
    pose proof (decode_token true c ds (flat_map render ps)
                  (forallb_impl _ _ _ is_digit_alnum Hall)) as D.
    cbv zeta in D. cbn [app] in *. rewrite <- app_assoc. cbn [app].
    rewrite <- app_assoc in D. cbn [app] in D. rewrite D.
    pose proof (replaceEntity_decimal c ds Hall Hsmall) as R.
    cbn [app] in R. rewrite R. now rewrite IH.
  - destruct Hp as (Hne & Hall & Hsmall).
    destruct hs as [|c hs]; [contradiction|].
    change (js "&#x") with [38; 35; 120]. change (js ";") with [59].
    assert (Hx : forallb alnum (120 :: c :: hs) = true).
    { change (forallb alnum (120 :: c :: hs))
        with (alnum 120 && forallb alnum (c :: hs))%bool.
      now rewrite (forallb_impl _ _ _ is_hex_alnum Hall). }
    pose proof (decode_token true 120 (c :: hs) (flat_map render ps) Hx) as D.
    cbv zeta in D. cbn [app] in *. rewrite <- app_assoc. cbn [app].
    rewrite <- app_assoc in D. cbn [app] in D. rewrite D.
    pose proof (replaceEntity_hexadecimal c hs Hall Hsmall) as R.
    cbn [app] in R. rewrite R. now rewrite IH.
Qed.

Lemma entities_decoded_below_2_16_witness :
  let ps := [Plain (ch "a"); Named (js "&amp;") (js "&");
             Named (js "&nbsp;") (js " "); Decimal (js "65");
             Hexadecimal (js "3042")] in
  Forall well_formed ps /\
  flat_map render ps = js "a&amp;&nbsp;&#65;&#x3042;" /\
  decodeHtmlEntities (js "a&amp;&nbsp;&#65;&#x3042;") = js "a& Aあ".
Proof.
  intros ps.
  assert (W : Forall well_formed ps).
  { apply Forall_cons; [vm_compute; discriminate|].
    apply Forall_cons; [vm_compute; auto|].
    apply Forall_cons; [vm_compute; auto 10|].
    apply Forall_cons;
      [repeat split; [discriminate | vm_compute; reflexivity ..]|].
    apply Forall_cons;
      [repeat split; [discriminate | vm_compute; reflexivity ..]|].
    apply Forall_nil. }
  split; [exact W|]. split; [vm_compute; reflexivity|].
  exact (entities_decoded_below_2_16 ps W).
Defined.

(** C6 fails for the no-break space: [&nbsp;] names the character
    U+00A0, which is also what its numeric reference [&#160;] decodes to,
    but the table maps the name to the ordinary space U+0020, so a text
    whose no-break space is written [&nbsp;] is not recovered. *)
Lemma nbsp_becomes_space :
  decodeHtmlEntities (js "&#160;") = [0xA0] /\
  decodeHtmlEntities (js "&nbsp;") = [0x20] /\
  decodeHtmlEntities (js "&nbsp;") <> [0xA0].
Proof.
  repeat split; try (vm_compute; reflexivity).
  vm_compute. discriminate.
Qed.

(** Outside the range of the theorem above: a numeric reference to a
    character beyond the Basic Multilingual Plane is decoded to its code
    point modulo 2^16.  [&#128512;] and [&#x1F600;] stand for U+1F600,
    whose literal text is the pair D83D DE00, and both decode to the single
    code unit F600.  A hexadecimal reference written with a capital [X] is
    read in base 10 and decodes to the code unit 0. *)
Lemma astral_reference_is_truncated :
  js "😀" = [0xD83D; 0xDE00] /\
  decodeHtmlEntities (js "&#128512;") = [0xF600] /\
  decodeHtmlEntities (js "&#x1F600;") = [0xF600] /\
  decodeHtmlEntities (js "&#X41;") = [0] /\
  decodeHtmlEntities (js "&#x41;") = js "A".
Proof. repeat split; vm_compute; reflexivity. Qed.

(** C7, at a token where the code departs from it.  [&#abc;] matches
    the entity pattern, is not a key of the table and is not a well-formed
    numeric reference ([parseInt] finds no digit), yet it is not left as it
    is: it is replaced by the code unit 0.  The same happens to [&#xZZ;],
    and [&#12ab;] becomes the code unit 12. *)
Theorem malformed_reference_is_replaced :
  match_len RE_ENTITY (js "&#abc;") = Some 6%nat /\
  lookup entityMap (js "&#abc;") = None /\
  parseInt (js "abc") 10 = NaN /\
  decodeHtmlEntities (js "&#abc;") = [0] /\
  decodeHtmlEntities (js "&#xZZ;") = [0] /\
  decodeHtmlEntities (js "&#12ab;") = [12] /\
  decodeHtmlEntities (js "&#abc;") <> js "&#abc;".
Proof.
  repeat split; try (vm_compute; reflexivity).
  vm_compute. discriminate.
Qed.

(* ================================================================= *)
(** ** Further properties of the route *)

(** Looks for the place where [sub] sits in a concatenation. *)
Ltac find_infix :=
  first [ apply includes_here; apply startsWith_app
        | apply includes_skip; find_infix ].

Lemma pop_last (init : list jsstring) (last : jsstring) :
  pop (init ++ [last]) = Some last.
Proof. unfold pop. now rewrite rev_app_distr. Qed.

(** X1.  The note for a chat link.  When the fetch of a URL that [isSlackUrl]
    recognises fails, the reply is a note whose title is [Slack - ]
    followed by the last non-empty segment of the path, or by [メッセージ]
    when the path has none, and whose content carries the privacy notice
    and the URL. *)
Theorem slack_note_on_failure
        (rt : Runtime) (url : jsstring) (u : URL) :
  truthy url = true ->
  parseURL rt url = Some u ->
  isSlackUrl rt url = true ->
  fetch_fails rt url ->
  exists label content,
    run_POST rt (Body (Some url))
      = (Some (Note (js "Slack - " ++ label) content), [PageRequest url]) /\
    (pathParts (pathname u) = [] -> label = js "メッセージ") /\
    (forall init last, pathParts (pathname u) = init ++ [last] -> label = last) /\
    includes
      (js "Slackのコンテンツはプライベートなため、直接アクセスして内容を確認してください。")
      content = true /\
    includes url content = true.
Proof.
  intros Ht Hp Hs Hf. unfold isSlackUrl in Hs. rewrite Hp in Hs.
  rewrite (POST_fetch_fails rt url u Ht Hp Hf).
  unfold fallbackNote. rewrite Hs. unfold slackNote.
  do 2 eexists. split; [reflexivity|]. repeat split.
  - intros ->. reflexivity.
  - intros init last ->. now rewrite pop_last.
  - find_infix.
  - find_infix.
Qed.

Lemma slack_note_on_failure_witness :
  isSlackUrl Scenario.rt_offline Scenario2.slack_url = true /\
  fetch_fails Scenario.rt_offline Scenario2.slack_url /\
  exists label content,
    run_POST Scenario.rt_offline (Body (Some Scenario2.slack_url))
      = (Some (Note (js "Slack - " ++ label) content),
         [PageRequest Scenario2.slack_url]) /\
    label = js "C02" /\
    includes Scenario2.slack_url content = true.
Proof.
  split; [vm_compute; reflexivity|]. split; [exact I|].
  destruct (slack_note_on_failure Scenario.rt_offline Scenario2.slack_url
              {| protocol := js "https:"; hostname := js "app.slack.com";
                 pathname := js "/client/T01/C02" |}
              eq_refl eq_refl eq_refl I)
    as (label & content & E & _ & Hl & _ & Hu).
  exists label, content. split; [exact E|]. split; [|exact Hu].
  exact (Hl [js "client"; js "T01"] (js "C02") eq_refl).
Defined.

(* ----------------------------------------------------------------- *)
(** *** What every note carries, and which calls are made *)








(** X3.  The calls a request makes.  A request makes no call at all, or the one
    page request, or the page request followed by one completion request;
    the completion request is made only with a non-empty credential and
    after the page was fetched with a status in 200-299 and its body read.
    Nothing is asked twice. *)
Theorem calls_are_bounded (rt : Runtime) (request : RequestBody) :
  let calls := snd (run_POST rt request) in
  calls = [] \/
  (exists url, request = Body (Some url) /\ calls = [PageRequest url]) \/
  (exists url key message response buffer,
     request = Body (Some url) /\
     OPENAI_API_KEY rt = Some key /\ truthy key = true /\
     fetchPage rt url = Some response /\ ok (status response) = true /\
     arrayBuffer response = Some buffer /\
     calls = [PageRequest url; ProviderRequest key message]).
Proof.
  destruct request as [|[url|]]; [now left| |now left].
  unfold run_POST, POST, try_catch, bind, requestUrl, ret.
  destruct (truthy url); cbn [negb]; [|now left].
  destruct (parseURL rt url) as [u|]; [|now left].
  unfold analyze, bind, fetch, lift, ret, throw. cbn [app].
  destruct (fetchPage rt url) as [resp|] eqn:Ef;
    [|right; left; now exists url].
  destruct (ok (status resp)) eqn:Eo; cbn [negb];
    [|right; left; now exists url].
  destruct (arrayBuffer resp) as [buffer|] eqn:Eb;
    [|right; left; now exists url].
  unfold summarize, bind, fetchCompletion, lift, ret, throw.
  destruct (OPENAI_API_KEY rt) as [key|] eqn:Ek;
    [|right; left; now exists url].
  destruct (truthy key) eqn:Et; [|right; left; now exists url].
  right; right.
  exists url, key,
    (providerMessage
       (extractTitle (resolveCharset rt (contentTypeOf resp) buffer) (hostname u))
       url (extractBody (resolveCharset rt (contentTypeOf resp) buffer))),
    resp, buffer.
  repeat (split; [reflexivity || assumption|]).
  destruct (fetchProvider rt key _) as [answer|]; [|reflexivity].
  destruct (ok (providerStatus answer)); [|reflexivity].
  destruct (firstChoice answer); reflexivity.
Qed.

(** X4.  The summary reply.  With a non-empty credential, when the page is
    fetched and the completion service answers with a status in 200-299
    and a readable first choice, the reply has the page title and the
    summary template: the summary follows the heading [## AI要約] and the
    body excerpt is not part of the content. *)
Theorem summary_replaces_excerpt
        (rt : Runtime) (url : jsstring) (u : URL) (response : Response)
        (buffer : bytes) (key : jsstring) (answer : ProviderResponse)
        (summary : jsstring) :
  truthy url = true ->
  parseURL rt url = Some u ->
  fetchPage rt url = Some response ->
  ok (status response) = true ->
  arrayBuffer response = Some buffer ->
  OPENAI_API_KEY rt = Some key -> truthy key = true ->
  let html := resolveCharset rt (contentTypeOf response) buffer in
  let title := extractTitle html (hostname u) in
  let message := providerMessage title url (extractBody html) in
  fetchProvider rt key message = Some answer ->
  ok (providerStatus answer) = true ->
  firstChoice answer = Some summary ->
  run_POST rt (Body (Some url))
    = (Some (Note title
               (js "# " ++ title ++ NL ++ NL ++ js "URL: " ++ url ++ NL ++ NL ++
                js "## AI要約" ++ NL ++ NL ++ summary ++ NL ++ NL ++
                js "[元のページを開く](" ++ url ++ js ")")),
       [PageRequest url; ProviderRequest key message]).
Proof.
  intros Ht Hp Hf Hs Hb Hk Hkt html title message Ha Hok Hc.
  rewrite (POST_fetched rt url u Ht Hp response buffer Hf Hs Hb).
  unfold summarize, bind, fetchCompletion, lift, ret.
  rewrite Hk, Hkt. fold html. fold title. fold message.
  rewrite Ha, Hok, Hc. reflexivity.
Qed.

Lemma summary_replaces_excerpt_witness :
  run_POST Scenario2.rt_summary (Body (Some Scenario.hello_url))
    = (Some (Note (js "Hello")
               (js "# Hello" ++ NL ++ NL ++ js "URL: " ++ Scenario.hello_url ++
                NL ++ NL ++ js "## AI要約" ++ NL ++ NL ++ js "- point" ++
                NL ++ NL ++ js "[元のページを開く](" ++ Scenario.hello_url ++
                js ")")),
       [PageRequest Scenario.hello_url;
        ProviderRequest (js "sk-test")
          (providerMessage (js "Hello") Scenario.hello_url (js "Hello World"))]).
Proof.
  exact (summary_replaces_excerpt Scenario2.rt_summary Scenario.hello_url
           {| protocol := js "https:"; hostname := js "example.com";
              pathname := js "/page" |}
           (Reference.page (Some (js "text/html")) Scenario.hello_page)
           Scenario.hello_page (js "sk-test")
           {| providerStatus := 200; firstChoice := Some (js "- point") |}
           (js "- point")
           eq_refl eq_refl eq_refl eq_refl eq_refl eq_refl eq_refl
           eq_refl eq_refl eq_refl).
Defined.

(* ----------------------------------------------------------------- *)
(** *** Invariants of the charset resolution *)

Section TrialFacts.
Variable rt : Runtime.
Variable buffer : bytes.

Lemma tryCandidates_sound (l : list jsstring) (t : jsstring) :
  tryCandidates rt l buffer = Some t ->
  exists c, In c l /\ decodeFatal rt c buffer = Some t /\ clean t = true.
Proof.
  induction l as [|c l IH]; simpl; [discriminate|].
  destruct (decodeFatal rt c buffer) as [d|] eqn:Ed.
  - destruct (clean d) eqn:Ec.
    + intros H. injection H as <-. exists c. auto.
    + intros H. destruct (IH H) as (c' & Hin & H'). exists c'. auto.
  - intros H. destruct (IH H) as (c' & Hin & H'). exists c'. auto.
Qed.

Lemma tryCandidates_complete (l : list jsstring) :
  existsb (fun c => decodesCleanly rt c buffer) l = true ->
  exists t, tryCandidates rt l buffer = Some t.
Proof.
  induction l as [|c l IH]; simpl; [discriminate|].
  unfold decodesCleanly at 1.
  destruct (decodeFatal rt c buffer) as [d|]; [destruct (clean d)|]; simpl; eauto.
Qed.

Lemma metaRedecode_clean (html : jsstring) :
  clean html = true -> clean (metaRedecode rt html buffer) = true.
Proof.
  intros H. unfold metaRedecode.
  destruct (metaCharset rt html) as [m|]; [|exact H].
  destruct (negb (jsstring_eqb m (js "utf-8")) && clean html)%bool; [|exact H].
  destruct (decodeFatal rt m buffer) as [d|]; [|exact H].
  destruct (clean d) eqn:E; [exact E|exact H].
Qed.
End TrialFacts.

(** X5.  A clean candidate gives a clean text.  When the header declares no
    charset, or the declared one fails to decode, and at least one of the
    four candidates decodes the bytes strictly without a replacement
    character, the text the handler goes on with has no replacement
    character: neither the trial nor the check of the [meta] tag can bring
    one in. *)
Theorem resolved_text_is_clean
        (rt : Runtime) (contentType : jsstring) (buffer : bytes) :
  match detectedCharset contentType with
  | Some charset => decodeFatal rt charset buffer = None
  | None => True
  end ->
  existsb (fun c => decodesCleanly rt c buffer) CHARSETS = true ->
  clean (resolveCharset rt contentType buffer) = true.
Proof.
  intros Hh Hex.
  assert (Ht : clean (tryDecodeWithCharsets rt buffer) = true).
  { unfold tryDecodeWithCharsets.
    destruct (tryCandidates_complete rt buffer CHARSETS Hex) as (t & E).
    rewrite E. now destruct (tryCandidates_sound rt buffer CHARSETS t E)
      as (c & _ & _ & Hc). }
  unfold resolveCharset.
  destruct (detectedCharset contentType) as [charset|].
  - now rewrite Hh.
  - now apply metaRedecode_clean.
Qed.

Lemma resolved_text_is_clean_witness :
  let rt := Scenario.rt_offline in
  detectedCharset (js "text/html") = None /\
  existsb (fun c => decodesCleanly rt c Scenario.meta_page) CHARSETS = true /\
  clean (resolveCharset rt (js "text/html") Scenario.meta_page) = true.
Proof.
  intros rt. do 2 (split; [vm_compute; reflexivity|]).
  exact (resolved_text_is_clean rt (js "text/html") Scenario.meta_page I eq_refl).
Defined.

(** X6.  Where the text comes from.  The text the handler goes on with is
    always a decode of the whole original buffer: either the lossy UTF-8
    decode, or the strict decode under one label, which is the charset of
    the header, one of the four candidates, or the lower-cased charset of
    the [meta] tag found in the text of the trial. *)
Theorem resolved_text_is_a_decode
        (rt : Runtime) (contentType : jsstring) (buffer : bytes) :
  let text := resolveCharset rt contentType buffer in
  text = decodeUtf8Lossy rt buffer \/
  exists label,
    decodeFatal rt label buffer = Some text /\
    (detectedCharset contentType = Some label \/
     In label CHARSETS \/
     metaCharset rt (tryDecodeWithCharsets rt buffer) = Some label).
Proof.
  assert (Ht : tryDecodeWithCharsets rt buffer = decodeUtf8Lossy rt buffer \/
               exists label,
                 decodeFatal rt label buffer = Some (tryDecodeWithCharsets rt buffer) /\
                 In label CHARSETS).
  { unfold tryDecodeWithCharsets.
    destruct (tryCandidates rt CHARSETS buffer) as [t|] eqn:E; [|now left].
    destruct (tryCandidates_sound rt buffer CHARSETS t E) as (c & Hin & Hd & _).
    right. now exists c. }
  unfold resolveCharset.
  destruct (detectedCharset contentType) as [charset|].
  - destruct (decodeFatal rt charset buffer) as [html|] eqn:Ed.
    + right. exists charset. auto.
    + destruct Ht as [Ht|(label & Hd & Hin)]; [now left|].
      right. exists label. auto.
  - unfold metaRedecode.
    destruct (metaCharset rt (tryDecodeWithCharsets rt buffer)) as [m|] eqn:Em.
    2:{ destruct Ht as [Ht|(label & Hd & Hin)]; [now left|].
        right. exists label. auto. }
    destruct (negb (jsstring_eqb m (js "utf-8")) &&
              clean (tryDecodeWithCharsets rt buffer))%bool.
    2:{ destruct Ht as [Ht|(label & Hd & Hin)]; [now left|].
        right. exists label. auto. }
    destruct (decodeFatal rt m buffer) as [d|] eqn:Ed.
    2:{ destruct Ht as [Ht|(label & Hd & Hin)]; [now left|].
        right. exists label. auto. }
    destruct (clean d).
    + right. exists m. auto.
    + destruct Ht as [Ht|(label & Hd & Hin)]; [now left|].
      right. exists label. auto.
Qed.

(* ----------------------------------------------------------------- *)
(** *** Texts without entities, and path segments *)

(** X7.  A text without ampersand is left as it is by the entity decoder. *)
Theorem decode_without_ampersand (text : jsstring) :
  includes (js "&") text = false -> decodeHtmlEntities text = text.
Proof.
  induction text as [|c text IH]; intros H; [reflexivity|].
  change (js "&") with [38] in *. cbn [includes startsWith] in H.
  apply orb_false_iff in H as [H1 H2].
  rewrite andb_true_r in H1. apply N.eqb_neq in H1.
  rewrite decode_plain by (intros ->; now apply H1).
  now rewrite IH.
Qed.

Lemma decode_without_ampersand_witness :
  includes (js "&") (js "Hello World") = false /\
  decodeHtmlEntities (js "Hello World") = js "Hello World".
Proof.
  split; [vm_compute; reflexivity|].
  exact (decode_without_ampersand (js "Hello World") eq_refl).
Defined.

Section SplitJoin.
Variable sep : N.

Lemma split_not_nil (s : jsstring) : split sep s <> [].
Proof.
  destruct s as [|c s]; simpl; [discriminate|].
  destruct (c =? sep); [discriminate|].
  destruct (split sep s); discriminate.
Qed.

Lemma split_pieces_free (s : jsstring) :
  Forall (fun w => free_of_sep sep w = true) (split sep s).
Proof.
  induction s as [|c s IH]; simpl.
  - repeat constructor.
  - destruct (c =? sep) eqn:E.
    + constructor; [reflexivity|exact IH].
    + destruct (split sep s) as [|w ws].
      * repeat constructor. simpl. now rewrite E.
      * inversion IH as [|? ? Hw Hws]; subst.
        constructor; [|exact Hws]. simpl. now rewrite E, Hw.
Qed.

Lemma split_free (w : jsstring) :
  free_of_sep sep w = true -> split sep w = [w].
Proof.
  induction w as [|c w IH]; simpl; [reflexivity|].
  intros H. apply andb_true_iff in H as [Hc Hw].
  apply negb_true_iff in Hc. rewrite Hc, (IH Hw). reflexivity.
Qed.

Lemma split_app_sep (w rest : jsstring) :
  free_of_sep sep w = true ->
  split sep (w ++ sep :: rest) = w :: split sep rest.
Proof.
  induction w as [|c w IH]; simpl.
  - intros _. now rewrite N.eqb_refl.
  - intros H. apply andb_true_iff in H as [Hc Hw].
    apply negb_true_iff in Hc. rewrite Hc, (IH Hw). reflexivity.
Qed.

Lemma split_join (l : list jsstring) :
  l <> [] -> Forall (fun w => free_of_sep sep w = true) l ->
  split sep (join [sep] l) = l.
Proof.
  induction l as [|w l IH]; [contradiction|].
  intros _ H. inversion H as [|? ? Hw Hl]; subst.
  destruct l as [|w' l].
  - simpl. now apply split_free.
  - change (join [sep] (w :: w' :: l)) with (w ++ sep :: join [sep] (w' :: l)).
    rewrite (split_app_sep _ _ Hw). f_equal. apply IH; [discriminate|exact Hl].
Qed.
End SplitJoin.

Lemma includes_one (c : N) (s : jsstring) :
  includes [c] s = negb (free_of_sep c s).
Proof.
  induction s as [|x s IH]; [reflexivity|].
  cbn [includes startsWith free_of_sep forallb]. fold (free_of_sep c s).
  rewrite IH, andb_true_r, negb_andb, negb_involutive.
  now rewrite N.eqb_sym.
Qed.

Lemma filter_all (l : list jsstring) :
  Forall (fun w => truthy w = true) l -> filter truthy l = l.
Proof.
  induction 1 as [|w l Hw _ IH]; simpl; [reflexivity|].
  now rewrite Hw, IH.
Qed.

(** X8.  Path segments.  The segments the fallback notes are built from are
    non-empty and contain no slash, however many slashes the path repeats;
    joining them with [/] and splitting the result again gives the same
    segments, so the path in a title [GitHub - ...] is in normal form. *)
Theorem path_parts_normal (path : jsstring) :
  let parts := pathParts path in
  (forall p, In p parts -> p <> [] /\ includes (js "/") p = false) /\
  pathParts (join (js "/") parts) = parts.
Proof.
  intros parts.
  assert (Hfree : Forall (fun w => free_of_sep (ch "/") w = true) parts).
  { unfold parts, pathParts. apply Forall_forall. intros w Hw.
    apply filter_In in Hw as [Hw _].
    pose proof (split_pieces_free (ch "/") path) as F.
    rewrite Forall_forall in F. now apply F. }
  assert (Hne : Forall (fun w => truthy w = true) parts).
  { unfold parts, pathParts. apply Forall_forall. intros w Hw.
    now apply filter_In in Hw as [_ Hw]. }
  split.
  - intros p Hp. rewrite Forall_forall in Hfree, Hne. split.
    + specialize (Hne p Hp). now destruct p.
    + change (js "/") with [ch "/"]. rewrite includes_one.
      now rewrite (Hfree p Hp).
  - destruct parts as [|w l] eqn:E; [reflexivity|].
    unfold pathParts. change (js "/") with [ch "/"].
    rewrite split_join; [|discriminate|exact Hfree].
    now apply filter_all.
Qed.

(* ================================================================= *)
(** ** The middleware *)

(** *** [trim] *)

Lemma trimStart_suffix (s : jsstring) : exists sp, s = sp ++ trimStart s.
Proof.
  induction s as [|c s (sp & IH)]; [now exists []|].
  simpl. destruct (is_space c).
  - exists (c :: sp). simpl. now rewrite <- IH.
  - now exists [].
Qed.

Lemma trimStart_head (s : jsstring) : head_kept (trimStart s).
Proof.
  induction s as [|c s IH]; simpl; [exact I|].
  destruct (is_space c) eqn:E; [exact IH|exact E].
Qed.

Lemma trimStart_fix (s : jsstring) : head_kept s -> trimStart s = s.
Proof. destruct s as [|c s]; simpl; [reflexivity|]. now intros ->. Qed.

Lemma trim_fix (s : jsstring) :
  head_kept s -> head_kept (rev s) -> trim s = s.
Proof.
  intros H1 H2. unfold trim, trimEnd.
  now rewrite (trimStart_fix s H1), (trimStart_fix (rev s) H2), rev_involutive.
Qed.

Lemma trim_ends (s : jsstring) :
  head_kept (trim s) /\ head_kept (rev (trim s)).
Proof.
  unfold trim, trimEnd. set (t := trimStart s).
  assert (Ht : head_kept t) by apply trimStart_head.
  destruct (trimStart_suffix (rev t)) as (sp & E).
  set (r := trimStart (rev t)) in *.
  split.
  - destruct r as [|x r'] eqn:Er; [exact I|].
    assert (Et : t = rev (x :: r') ++ rev sp).
    { rewrite <- rev_app_distr, <- E. now rewrite rev_involutive. }
    destruct (rev (x :: r')) as [|y l] eqn:Ey.
    + apply (f_equal (@length N)) in Ey. rewrite length_rev in Ey. discriminate.
    + rewrite Et in Ht. exact Ht.
  - rewrite rev_involutive. apply trimStart_head.
Qed.

Lemma trim_idempotent (s : jsstring) : trim (trim s) = trim s.
Proof. destruct (trim_ends s). now apply trim_fix. Qed.

(** *** The list of allowed addresses *)

Lemma listIncludes_In (l : list jsstring) (x : jsstring) :
  listIncludes l x = true <-> In x l.
Proof.
  unfold listIncludes. rewrite existsb_exists. split.
  - intros (y & Hy & E). apply jsstring_eqb_eq in E. now subst.
  - intros H. exists x. split; [exact H|apply jsstring_eqb_refl].
Qed.

(** X9.  The list read from the environment.  When [ALLOWED_IPS] is the
    addresses [ips] joined by commas (at least one address, none of them
    containing a comma, the whole not empty), the list the middleware
    checks against is [ips] with each address trimmed; and every entry of
    a list read from the environment is trimmed already. *)
Theorem allowed_list_from_env
        (env : Env) (defaults ips : list jsstring) :
  ips <> [] ->
  Forall (fun a => free_of_sep (ch ",") a = true) ips ->
  truthy (join (js ",") ips) = true ->
  ENV_ALLOWED_IPS env = Some (join (js ",") ips) ->
  allowedFrom env defaults = map trim ips /\
  forall a, In a (allowedFrom env defaults) -> trim a = a.
Proof.
  intros Hne Hfree Ht He.
  assert (E : allowedFrom env defaults = map trim ips).
  { unfold allowedFrom. rewrite He, Ht. change (js ",") with [ch ","].
    now rewrite split_join. }
  split; [exact E|].
  intros a Ha. rewrite E in Ha. apply in_map_iff in Ha as (x & <- & _).
  apply trim_idempotent.
Qed.

Lemma allowed_list_from_env_witness :
  let env := {| ENV_ALLOWED_IPS := Some (js "10.0.0.1, 10.0.0.2 ");
                NODE_ENV := None |} in
  let ips := [js "10.0.0.1"; js " 10.0.0.2 "] in
  join (js ",") ips = js "10.0.0.1, 10.0.0.2 " /\
  MiddlewareTs.ALLOWED_IPS env = [js "10.0.0.1"; js "10.0.0.2"].
Proof.
  intros env ips. split; [reflexivity|].
  assert (F : Forall (fun a => free_of_sep (ch ",") a = true) ips)
    by (repeat constructor).
  assert (N0 : ips <> []) by discriminate.
  exact (proj1 (allowed_list_from_env env [js "162.120.184.17"] ips
                  N0 F eq_refl eq_refl)).
Defined.

(** *** Who is let in *)

(** X10.  The forwarded header decides alone.  In the version that reads five
    headers, two requests with the same non-empty [x-forwarded-for] get the
    same verdict whatever their other headers and addresses are, and the
    verdict is [Next] as soon as the first field of that header, trimmed,
    is an allowed address. *)
Theorem forwarded_header_decides
        (env : Env) (r1 r2 : Access) (v : jsstring) :
  header r1 (js "x-forwarded-for") = Some v ->
  header r2 (js "x-forwarded-for") = Some v ->
  truthy v = true ->
  MiddlewareHeaders.middleware env r1 = MiddlewareHeaders.middleware env r2 /\
  (In (firstField v) (MiddlewareHeaders.ALLOWED_IPS env) ->
   MiddlewareHeaders.middleware env r1 = Next).
Proof.
  intros H1 H2 Hv.
  assert (C : forall r, header r (js "x-forwarded-for") = Some v ->
                        MiddlewareHeaders.clientIp r = firstField v).
  { intros r Hr. unfold MiddlewareHeaders.clientIp, or_else.
    cbv beta zeta. rewrite Hr, Hv. cbv iota. now rewrite Hv. }
  unfold MiddlewareHeaders.middleware. rewrite (C r1 H1), (C r2 H2).
  split; [reflexivity|].
  intros Hin. apply listIncludes_In in Hin. rewrite Hin.
  now destruct (isDevelopment env).
Qed.

Lemma forwarded_header_decides_witness :
  let env := {| ENV_ALLOWED_IPS := None; NODE_ENV := Some (js "production") |} in
  let forged := fun name : jsstring =>
    if jsstring_eqb name (js "x-forwarded-for")
    then Some (js "150.249.192.229, 203.0.113.9")
    else if jsstring_eqb name (js "x-real-ip") then Some (js "203.0.113.9")
    else None in
  let r := {| header := forged; ip := Some (js "203.0.113.9") |} in
  MiddlewareHeaders.middleware env r = Next.
Proof.
  intros env forged r.
  apply (proj2 (forwarded_header_decides env r r
                  (js "150.249.192.229, 203.0.113.9") eq_refl eq_refl eq_refl)).
  vm_compute. auto.
Defined.

Lemma In_nil_map_trim (v : jsstring) :
  In [] (map trim (split (ch ",") v)) <->
  exists field, In field (split (ch ",") v) /\ trim field = [].
Proof.
  rewrite in_map_iff. split; intros (f & A & B); exists f; auto.
Qed.

(** X11.  Requests without an address.  Outside development, a request that
    carries none of the headers read and no platform address is checked as
    the empty address.  Both versions let it through exactly when
    [ALLOWED_IPS] is set and one of its comma-separated fields is blank, as
    with a trailing comma; with the variable unset it is always refused. *)
Theorem request_without_address (env : Env) (r : Access) :
  (forall name, header r name = None) -> ip r = None ->
  isDevelopment env = false ->
  let blank_field :=
    exists v field,
      ENV_ALLOWED_IPS env = Some v /\ truthy v = true /\
      In field (split (ch ",") v) /\ trim field = [] in
  (MiddlewareTs.middleware env r = Next <-> blank_field) /\
  (MiddlewareHeaders.middleware env r = Next <-> blank_field) /\
  (~ blank_field ->
   MiddlewareTs.middleware env r = Denied [] None /\
   exists l, MiddlewareHeaders.middleware env r = Denied [] (Some l)).
Proof.
  intros Hh Hi Hd blank_field.
  assert (C1 : MiddlewareTs.clientIp r = []).
  { unfold MiddlewareTs.clientIp, or_else. now rewrite !Hh, Hi. }
  assert (C2 : MiddlewareHeaders.clientIp r = []).
  { unfold MiddlewareHeaders.clientIp, or_else. cbv beta zeta.
    now rewrite !Hh. }
  assert (L : forall defaults,
             ~ In [] defaults ->
             (In [] (allowedFrom env defaults) <-> blank_field)).
  { intros defaults Hdef. unfold allowedFrom, blank_field.
    destruct (ENV_ALLOWED_IPS env) as [v|].
    - destruct (truthy v) eqn:Ev.
      + rewrite In_nil_map_trim. split.
        * intros (f & A & B). now exists v, f.
        * intros (v' & f & E & _ & A & B). injection E as <-. now exists f.
      + split; [contradiction|].
        intros (v' & f & E & T & _). injection E as <-. congruence.
    - split; [contradiction|]. intros (v' & f & E & _). discriminate. }
  assert (L1 := L [js "162.120.184.17"]).
  assert (L2 := L [js "162.120.184.17"; js "150.249.192.229"]).
  assert (D1 : ~ In [] [js "162.120.184.17"])
    by (intros [H|[]]; discriminate H).
  assert (D2 : ~ In [] [js "162.120.184.17"; js "150.249.192.229"])
    by (intros [H|[H|[]]]; discriminate H).
  specialize (L1 D1). specialize (L2 D2).
  unfold MiddlewareTs.middleware, MiddlewareHeaders.middleware.
  rewrite Hd, C1, C2.
  fold (MiddlewareTs.ALLOWED_IPS env) in L1.
  fold (MiddlewareHeaders.ALLOWED_IPS env) in L2.
  rewrite <- listIncludes_In in L1, L2.
  split; [|split].
  - destruct (listIncludes (MiddlewareTs.ALLOWED_IPS env) []); cbn [negb];
      split; intros H; try reflexivity; try discriminate.
    + now apply L1.
    + apply L1 in H. discriminate.
  - destruct (listIncludes (MiddlewareHeaders.ALLOWED_IPS env) []); cbn [negb];
      split; intros H; try reflexivity; try discriminate.
    + now apply L2.
    + apply L2 in H. discriminate.
  - intros Hn.
    destruct (listIncludes (MiddlewareTs.ALLOWED_IPS env) []);
      [exfalso; now apply Hn, L1|].
    destruct (listIncludes (MiddlewareHeaders.ALLOWED_IPS env) []);
      [exfalso; now apply Hn, L2|].
    cbn [negb]. split; [reflexivity|]. now eexists.
Qed.

Lemma request_without_address_witness :
  let env := {| ENV_ALLOWED_IPS := Some (js "10.0.0.1,");
                NODE_ENV := Some (js "production") |} in
  let r := {| header := fun _ => None; ip := None |} in
  In [] (split (ch ",") (js "10.0.0.1,")) /\
  MiddlewareTs.middleware env r = Next /\
  MiddlewareHeaders.middleware env r = Next.
Proof.
  intros env r. split; [vm_compute; auto|].
  destruct (request_without_address env r (fun _ => eq_refl) eq_refl eq_refl)
    as (A & B & _).
  assert (W : exists v field,
             ENV_ALLOWED_IPS env = Some v /\ truthy v = true /\
             In field (split (ch ",") v) /\ trim field = []).
  { exists (js "10.0.0.1,"), []. repeat split. vm_compute. auto. }
  split; [now apply A|now apply B].
Defined.

(** X12.  A blank first field.  Outside development, when [x-forwarded-for] is
    not empty but its first field is blank (as in [" , 10.0.0.1"]) and
    [x-real-ip] holds an address, [middleware.ts] judges the request on
    [x-real-ip], while the version that reads five headers judges it on
    the empty address and ignores [x-real-ip]. *)
Theorem blank_forwarded_field
        (env : Env) (r : Access) (v real : jsstring) :
  isDevelopment env = false ->
  header r (js "x-forwarded-for") = Some v ->
  truthy v = true -> firstField v = [] ->
  header r (js "x-real-ip") = Some real -> truthy real = true ->
  (MiddlewareTs.middleware env r = Next <->
   In real (MiddlewareTs.ALLOWED_IPS env)) /\
  (MiddlewareHeaders.middleware env r = Next <->
   In [] (MiddlewareHeaders.ALLOWED_IPS env)).
Proof.
  intros Hd Hx Hv Hf Hr Ht.
  assert (C1 : MiddlewareTs.clientIp r = real).
  { unfold MiddlewareTs.clientIp, or_else. now rewrite Hx, Hf, Hr, Ht. }
  assert (C2 : MiddlewareHeaders.clientIp r = []).
  { unfold MiddlewareHeaders.clientIp, or_else. cbv beta zeta.
    rewrite Hx, Hv. cbv iota. now rewrite Hv, Hf. }
  unfold MiddlewareTs.middleware, MiddlewareHeaders.middleware.
  rewrite Hd, C1, C2, <- !listIncludes_In.
  split.
  - destruct (listIncludes (MiddlewareTs.ALLOWED_IPS env) real); cbn [negb];
      split; intros H; try reflexivity; discriminate.
  - destruct (listIncludes (MiddlewareHeaders.ALLOWED_IPS env) []); cbn [negb];
      split; intros H; try reflexivity; discriminate.
Qed.

Lemma blank_forwarded_field_witness :
  let env := {| ENV_ALLOWED_IPS := Some (js "10.0.0.1");
                NODE_ENV := Some (js "production") |} in
  let headers := fun name : jsstring =>
    if jsstring_eqb name (js "x-forwarded-for") then Some (js " , 10.0.0.1")
    else if jsstring_eqb name (js "x-real-ip") then Some (js "10.0.0.1")
    else None in
  let r := {| header := headers; ip := None |} in
  MiddlewareTs.middleware env r = Next /\
  MiddlewareHeaders.middleware env r <> Next.
Proof.
  intros env headers r.
  destruct (blank_forwarded_field env r (js " , 10.0.0.1") (js "10.0.0.1")
              eq_refl eq_refl eq_refl eq_refl eq_refl eq_refl) as (A & B).
  split.
  - apply A. vm_compute. auto.
  - intros H. apply B in H. vm_compute in H. destruct H as [H|[]]. discriminate.
Defined.

(* ================================================================= *)
(** ** The client library and the dialog *)

Lemma POST_replies (rt : Runtime) (request : RequestBody) :
  exists reply, fst (run_POST rt request) = Some reply.
Proof.
  unfold run_POST, POST, try_catch.
  match goal with
  | |- context [match ?m [] with _ => _ end] => destruct (m []) as [[r|] log]
  end; simpl; eauto.
Qed.

Lemma isValidUrl_trim (rt : Runtime) (text : jsstring) :
  isValidUrl rt (trim text) = isValidUrl rt text.
Proof. unfold isValidUrl. now rewrite trim_idempotent. Qed.

Lemma analysis_cases
        (rt : Runtime) (invalidMessage : jsstring -> jsstring)
        (verdict : Verdict) (url : jsstring) :
  parseURL rt [] = None ->
  let result := analyzeUrl rt invalidMessage (site verdict rt) url in
  match parseURL rt url, verdict with
  | None, _ => result = (failure (invalidMessage url), [])
  | Some _, Denied _ _ => result = (failure (js "Access Denied"), [url])
  | Some _, Next =>
      exists title content,
        fst (run_POST rt (Body (Some url))) = Some (Note title content) /\
        result = ({| j_title := Some title; j_content := Some content;
                     j_error := None |}, [url])
  end.
Proof.
  intros Hempty result. unfold result, analyzeUrl.
  destruct (parseURL rt url) as [u|] eqn:Hp; [|reflexivity].
  destruct verdict as [|a l]; [|reflexivity].
  assert (Ht : truthy url = true).
  { destruct url; [congruence|reflexivity]. }
  destruct (POST_parsed rt url u Ht Hp) as (t & c & calls & E).
  exists t, c. unfold site. rewrite E. cbn [fst respond]. split; reflexivity.
Qed.


(** X13.  What reaches the caller of [analyzeUrl].  When client and server
    parse URLs alike and the empty string is not a URL, the analysis of a
    URL through the site has three outcomes.  A URL that does not parse is
    refused by the client with the message of the parser and nothing is
    posted.  A refusal of the middleware comes back as the error
    [Access Denied].  Otherwise the result is the note of the route, with
    no error: the route's own error replies never reach the client. *)
Theorem analysis_through_site
        (rt : Runtime) (invalidMessage : jsstring -> jsstring)
        (verdict : Verdict) (url : jsstring) :
  parseURL rt [] = None ->
  let result := analyzeUrl rt invalidMessage (site verdict rt) url in
  match parseURL rt url, verdict with
  | None, _ => result = (failure (invalidMessage url), [])
  | Some _, Denied _ _ => result = (failure (js "Access Denied"), [url])
  | Some _, Next =>
      exists title content,
        fst (run_POST rt (Body (Some url))) = Some (Note title content) /\
        result = ({| j_title := Some title; j_content := Some content;
                     j_error := None |}, [url])
  end.
Proof. exact (analysis_cases rt invalidMessage verdict url). Qed.

Lemma analysis_through_site_witness :
  parseURL Scenario.rt_hello [] = None /\
  analyzeUrl Scenario.rt_hello (fun _ => js "Invalid URL")
             (site Next Scenario.rt_hello) Scenario.hello_url
    = ({| j_title := Some (js "Hello");
          j_content :=
            Some (excerptContent (js "Hello") Scenario.hello_url
                    (js "Hello World"));
          j_error := None |}, [Scenario.hello_url]).
Proof.
  split; [reflexivity|].
  destruct (analysis_through_site Scenario.rt_hello (fun _ => js "Invalid URL")
              Next Scenario.hello_url eq_refl) as (t & c & E & ->).
  assert (E' : fst (run_POST Scenario.rt_hello (Body (Some Scenario.hello_url)))
               = Some (Note (js "Hello")
                         (excerptContent (js "Hello") Scenario.hello_url
                            (js "Hello World"))))
    by (vm_compute; reflexivity).
  rewrite E' in E. injection E as <- <-. reflexivity.
Defined.

Section Dialog.
Variable rt : Runtime.
Variable invalidMessage : jsstring -> jsstring.
Variable post : jsstring -> Delivery.

(** X14.  Typed content is safe.  Unless the trimmed title is an http or https
    URL and the content field is blank or not mounted, leaving the title
    field changes nothing and posts nothing. *)
Theorem blur_keeps_typed_content (d : NoteDialog) :
  isValidUrl rt (titleInput d) = false \/
  (exists c, contentInput d = Some c /\ trim c <> []) ->
  onTitleBlur rt invalidMessage post d = (d, []).
Proof.
  intros H. unfold onTitleBlur. rewrite isValidUrl_trim.
  destruct H as [H|(c & Hc & Hn)].
  - now rewrite H.
  - rewrite Hc. destruct (trim c); [contradiction|].
    cbn [truthy negb]. now rewrite andb_false_r.
Qed.

(** X15.  A failed analysis leaves the fields alone.  When the analysis comes
    back with a non-empty error, the title, the content and the previews
    are as before, and the only effect is one alert that quotes the
    error. *)
Theorem blur_failure_alerts (d : NoteDialog) (result : Json)
        (sent : list jsstring) (message : jsstring) :
  isValidUrl rt (titleInput d) = true ->
  match contentInput d with Some c => trim c = [] | None => True end ->
  analyzeUrl rt invalidMessage post (trim (titleInput d)) = (result, sent) ->
  j_error result = Some message -> message <> [] ->
  onTitleBlur rt invalidMessage post d
    = ({| titleInput := titleInput d;
          contentInput := contentInput d;
          previewTitle := previewTitle d;
          previewContent := previewContent d;
          isAnalyzingUrl := false;
          alerts := alerts d ++ [js "URL解析エラー: " ++ message] |}, sent).
Proof.
  intros Hv Hc Ha He Hm. unfold onTitleBlur. rewrite isValidUrl_trim, Hv.
  assert (Ht : match contentInput d with
               | Some c => truthy (trim c)
               | None => false
               end = false).
  { destruct (contentInput d) as [c|]; [now rewrite Hc|reflexivity]. }
  rewrite Ht, Ha. cbn [andb negb]. unfold or_else. rewrite He.
  destruct message; [contradiction|]. reflexivity.
Qed.
End Dialog.

Lemma blur_keeps_typed_content_witness :
  let d := {| titleInput := Scenario.hello_url;
              contentInput := Some (js "my notes");
              previewTitle := Some Scenario.hello_url;
              previewContent := Some (js "my notes");
              isAnalyzingUrl := false; alerts := [] |} in
  trim (js "my notes") <> [] /\
  onTitleBlur Scenario.rt_hello (fun _ => js "Invalid URL")
              (site Next Scenario.rt_hello) d = (d, []).
Proof.
  intros d.
  assert (N0 : trim (js "my notes") <> []) by (vm_compute; discriminate).
  split; [exact N0|].
  apply blur_keeps_typed_content. right. exists (js "my notes"). now split.
Defined.

Lemma blur_failure_alerts_witness :
  let d := {| titleInput := Scenario.hello_url;
              contentInput := Some [];
              previewTitle := Some Scenario.hello_url;
              previewContent := Some [];
              isAnalyzingUrl := false; alerts := [] |} in
  onTitleBlur Scenario.rt_hello (fun _ => js "Invalid URL")
              (site (Denied (js "203.0.113.9") None) Scenario.rt_hello) d
    = ({| titleInput := Scenario.hello_url;
          contentInput := Some [];
          previewTitle := Some Scenario.hello_url;
          previewContent := Some [];
          isAnalyzingUrl := false;
          alerts := [js "URL解析エラー: " ++ js "Access Denied"] |},
       [Scenario.hello_url]).
Proof.
  intros d.
  assert (N0 : js "Access Denied" <> []) by discriminate.
  exact (blur_failure_alerts Scenario.rt_hello (fun _ => js "Invalid URL")
           (site (Denied (js "203.0.113.9") None) Scenario.rt_hello) d
           (failure (js "Access Denied")) [Scenario.hello_url]
           (js "Access Denied") eq_refl eq_refl eq_refl eq_refl N0).
Defined.

(** X16.  From the title field to the note.  When the trimmed title is an http
    or https URL, the content field is blank, client and server parse URLs
    alike, the empty string is not a URL and the middleware lets the
    request through, leaving the title field posts the trimmed title once
    and fills the title and the content with the note the route answers;
    no alert is shown. *)
Theorem blur_fills_note
        (rt : Runtime) (invalidMessage : jsstring -> jsstring)
        (d : NoteDialog) (c : jsstring) :
  parseURL rt [] = None ->
  isValidUrl rt (titleInput d) = true ->
  contentInput d = Some c -> trim c = [] ->
  exists title content,
    fst (run_POST rt (Body (Some (trim (titleInput d)))))
      = Some (Note title content) /\
    onTitleBlur rt invalidMessage (site Next rt) d
      = ({| titleInput := title;
            contentInput := Some content;
            previewTitle := Some title;
            previewContent := Some content;
            isAnalyzingUrl := false;
            alerts := alerts d |}, [trim (titleInput d)]).
Proof.
  intros Hempty Hv Hc Hb.
  pose proof (analysis_cases rt invalidMessage Next
                (trim (titleInput d)) Hempty) as A.
  cbv zeta in A.
  assert (Hp : exists u, parseURL rt (trim (titleInput d)) = Some u).
  { apply isValidUrl_scheme in Hv as (u & E & _). now exists u. }
  destruct Hp as (u & Hp). rewrite Hp in A.
  destruct A as (t & k & E & A).
  exists t, k. split; [exact E|].
  unfold onTitleBlur. rewrite isValidUrl_trim, Hv, Hc, Hb, A. reflexivity.
Qed.

Lemma blur_fills_note_witness :
  let d := {| titleInput := js "  https://example.com/page ";
              contentInput := Some (js " ");
              previewTitle := Some (js "  https://example.com/page ");
              previewContent := Some (js " ");
              isAnalyzingUrl := false; alerts := [] |} in
  trim (titleInput d) = Scenario.hello_url /\
  exists title content,
    fst (run_POST Scenario.rt_hello (Body (Some (trim (titleInput d)))))
      = Some (Note title content) /\
    onTitleBlur Scenario.rt_hello (fun _ => js "Invalid URL")
                (site Next Scenario.rt_hello) d
      = ({| titleInput := title;
            contentInput := Some content;
            previewTitle := Some title;
            previewContent := Some content;
            isAnalyzingUrl := false;
            alerts := [] |}, [trim (titleInput d)]).
Proof.
  intros d. split; [vm_compute; reflexivity|].
  exact (blur_fills_note Scenario.rt_hello (fun _ => js "Invalid URL") d
           (js " ") eq_refl eq_refl eq_refl eq_refl).
Defined.

(* ================================================================= *)
(** ** The workspace *)

Section WorkspaceFacts.
Import Workspace.

(** *** Searching a list *)

Lemma find_found {A} (f : A -> bool) (l : list A) :
  (exists x, find f l = Some x) <-> (exists x, In x l /\ f x = true).
Proof.
  split.
  - intros (x & H). exists x. now apply find_some in H.
  - intros (x & Hin & Hf). destruct (find f l) eqn:E; [now eexists|].
    now rewrite (find_none _ _ E x Hin) in Hf.
Qed.

Lemma find_filter {A} (f g : A -> bool) (l : list A) :
  (forall x, f x = true -> g x = true) ->
  find f (filter g l) = find f l.
Proof.
  intros H. induction l as [|x l IH]; simpl; [reflexivity|].
  destruct (f x) eqn:Ef.
  - rewrite (H x Ef). simpl. now rewrite Ef.
  - destruct (g x); simpl; [now rewrite Ef|exact IH].
Qed.

Lemma find_same {A} (f g : A -> bool) (l : list A) :
  (forall x, f x = g x) -> find f l = find g l.
Proof.
  intros H. induction l as [|x l IH]; simpl; [reflexivity|].
  now rewrite H, IH.
Qed.

Lemma find_map_same {A} (f : A -> bool) (g : A -> A) (l : list A) :
  (forall x, f (g x) = f x) ->
  find f (map g l) = option_map g (find f l).
Proof.
  intros H. induction l as [|x l IH]; simpl; [reflexivity|].
  rewrite H. now destruct (f x).
Qed.

Lemma is_id_eq (x : option jsstring) (id : jsstring) :
  is_id x id = true <-> x = Some id.
Proof.
  destruct x as [v|]; simpl.
  - rewrite jsstring_eqb_eq. split; congruence.
  - split; discriminate.
Qed.

Lemma is_id_refl (id : jsstring) : is_id (Some id) id = true.
Proof. now apply is_id_eq. Qed.

(** *** The sort *)

Lemma insertNote_perm (n : Note) (l : list Note) :
  Permutation (n :: l) (insertNote n l).
Proof.
  induction l as [|m l IH]; simpl; [reflexivity|].
  destruct (updatedAt m <=? updatedAt n)%Z; [reflexivity|].
  rewrite perm_swap. now constructor.
Qed.

Lemma sortNotes_perm (l : list Note) : Permutation l (sortNotes l).
Proof.
  induction l as [|n l IH]; simpl; [constructor|].
  rewrite <- insertNote_perm. now constructor.
Qed.

Lemma insertNote_sorted (n : Note) (l : list Note) :
  latest_first l -> latest_first (insertNote n l).
Proof.
  unfold latest_first. induction l as [|m l IH]; simpl; intros H.
  - repeat constructor.
  - inversion H as [|? ? Hl Hm]; subst.
    destruct (updatedAt m <=? updatedAt n)%Z eqn:E.
    + constructor; [exact H|]. constructor; [lia|].
      rewrite Forall_forall in *. intros x Hx. specialize (Hm x Hx). lia.
    + constructor; [now apply IH|].
      rewrite Forall_forall in *. intros x Hx.
      apply (Permutation_in _ (Permutation_sym (insertNote_perm n l))) in Hx.
      destruct Hx as [<-|Hx]; [lia|now apply Hm].
Qed.

Lemma sortNotes_sorted (l : list Note) : latest_first (sortNotes l).
Proof.
  induction l as [|n l IH]; simpl; [constructor|now apply insertNote_sorted].
Qed.

Lemma insertNote_at_time (t : Z) (n : Note) (l : list Note) :
  latest_first l ->
  at_time t (insertNote n l) = at_time t (n :: l).
Proof.
  unfold latest_first, at_time.
  induction l as [|m l IH]; intros H; [reflexivity|].
  inversion H as [|? ? Hl Hm]; subst. simpl.
  destruct (updatedAt m <=? updatedAt n)%Z eqn:E; [reflexivity|].
  simpl. specialize (IH Hl). simpl in IH.
  destruct (updatedAt m =? t)%Z eqn:Em, (updatedAt n =? t)%Z eqn:En;
    try (rewrite IH; reflexivity); lia.
Qed.

Lemma sortNotes_at_time (t : Z) (l : list Note) :
  at_time t (sortNotes l) = at_time t l.
Proof.
  induction l as [|n l IH]; [reflexivity|]. simpl sortNotes.
  rewrite insertNote_at_time by apply sortNotes_sorted.
  unfold at_time in *. simpl. now rewrite IH.
Qed.

Lemma sortNotes_In (n : Note) (l : list Note) :
  In n (sortNotes l) <-> In n l.
Proof.
  split; apply Permutation_in;
    [apply Permutation_sym|]; apply sortNotes_perm.
Qed.

Lemma sortNotes_head (l : list Note) (x : Note) :
  In x l ->
  exists h rest, sortNotes l = h :: rest /\ In h l /\
                 (updatedAt x <= updatedAt h)%Z.
Proof.
  intros Hx. pose proof (sortNotes_sorted l) as S.
  apply sortNotes_In in Hx.
  destruct (sortNotes l) as [|h rest] eqn:E; [contradiction|].
  exists h, rest. split; [reflexivity|]. split.
  - apply sortNotes_In. rewrite E. now left.
  - inversion S as [|? ? _ Hh]; subst.
    destruct Hx as [<-|Hx]; [lia|].
    rewrite Forall_forall in Hh. now apply Hh.
Qed.

Lemma sortActive_same (a : option jsstring) (ps : list Project) :
  Forall2 (fun p p' => p_id p' = p_id p /\ p_name p' = p_name p /\
                       Permutation (notes p) (notes p'))
          ps (sortActive a ps).
Proof.
  assert (R : forall l : list Project,
             Forall2 (fun p p' => p_id p' = p_id p /\ p_name p' = p_name p /\
                                  Permutation (notes p) (notes p')) l l).
  { induction l; constructor; auto. }
  induction ps as [|p ps IH]; simpl; [constructor|].
  destruct (is_id a (p_id p)).
  - constructor; [|apply R]. simpl. repeat split. apply sortNotes_perm.
  - constructor; [|exact IH]. auto.
Qed.

Lemma find_sortActive (a : option jsstring) (ps : list Project) :
  find (fun p => is_id a (p_id p)) (sortActive a ps)
  = option_map (fun p => {| p_id := p_id p; p_name := p_name p;
                            notes := sortNotes (notes p) |})
               (find (fun p => is_id a (p_id p)) ps).
Proof.
  induction ps as [|p ps IH]; simpl; [reflexivity|].
  destruct (is_id a (p_id p)) eqn:E; simpl; now rewrite E.
Qed.

(** *** The selection *)

Lemma consistent_load (stored : option (list Project)) (sd : list Project) :
  consistent (load stored sd).
Proof.
  unfold load. set (ps := match stored with Some parsed => parsed | None => sd end).
  clearbody ps. unfold consistent, selectedNote, activeProject. simpl.
  destruct ps as [|p ps]; simpl; [now split; left|].
  rewrite jsstring_eqb_refl. split; [right; now eexists|].
  destruct (notes p) as [|n l]; simpl; [now left|].
  right. rewrite jsstring_eqb_refl. now eexists.
Qed.

Lemma consistent_render (rt : Runtime) (s : State) :
  consistent s -> consistent (setProjects (snd (filteredNotes rt s)) s).
Proof.
  unfold filteredNotes.
  destruct (negb (truthy (trim (query s)))); simpl;
    [|now destruct s].
  unfold consistent, selectedNote, activeProject. simpl.
  rewrite find_sortActive.
  destruct (find (fun p => is_id (activeProjectId s) (p_id p)) (projects s))
    as [p|]; simpl.
  - intros (_ & HB). split; [right; now eexists|].
    destruct HB as [HB|HB]; [now left|right].
    apply find_found. apply find_found in HB. destruct HB as (n & Hn & Hf).
    exists n. split; [now apply sortNotes_In|exact Hf].
  - intros (HA & HB). split; [exact HA|exact HB].
Qed.

Lemma consistent_tab (s : State) (id : jsstring) (p : Project) :
  find (fun p => jsstring_eqb (p_id p) id) (projects s) = Some p ->
  consistent
    (setSelectedNoteId
       (firstNoteId
          (find (fun x => jsstring_eqb (p_id x) (p_id p)) (projects s)))
       (setActiveProjectId (Some (p_id p)) s)).
Proof.
  intros H. apply find_some in H. destruct H as (Hin & _).
  unfold consistent, selectedNote, activeProject. simpl.
  assert (E : find (fun x => jsstring_eqb (p_id p) (p_id x)) (projects s)
              = find (fun x => jsstring_eqb (p_id x) (p_id p)) (projects s)).
  { apply find_same. intros x.
    destruct (jsstring_eqb (p_id x) (p_id p)) eqn:E1.
    - apply jsstring_eqb_eq in E1. rewrite E1. apply jsstring_eqb_refl.
    - apply jsstring_eqb_neq in E1. apply jsstring_eqb_neq. congruence. }
  rewrite E.
  destruct (find (fun x => jsstring_eqb (p_id x) (p_id p)) (projects s))
    as [q|] eqn:F.
  - split; [right; now eexists|]. simpl.
    destruct (notes q) as [|n l]; simpl; [now left|].
    right. rewrite jsstring_eqb_refl. now eexists.
  - exfalso. pose proof (find_none _ _ F p Hin) as N. simpl in N.
    now rewrite jsstring_eqb_refl in N.
Qed.

Lemma consistent_add (fresh : jsstring) (s : State) :
  consistent (addProject fresh s).
Proof.
  unfold consistent, selectedNote, activeProject. simpl.
  rewrite jsstring_eqb_refl. split; [right; now eexists|now left].
Qed.

Lemma consistent_rename (id name : jsstring) (s : State) :
  consistent s -> consistent (renameProject id name s).
Proof.
  unfold consistent, selectedNote, activeProject. simpl.
  rewrite find_map_same by (intros x; now destruct (jsstring_eqb (p_id x) id)).
  destruct (find (fun p => is_id (activeProjectId s) (p_id p)) (projects s))
    as [p|]; simpl; [|tauto].
  intros (_ & HB). split; [right; now eexists|].
  now destruct (jsstring_eqb (p_id p) id).
Qed.

Lemma consistent_deleteProject (confirmed : bool) (id : jsstring) (s : State) :
  consistent s -> consistent (deleteProject confirmed id s).
Proof.
  intros H. unfold deleteProject.
  destruct (negb confirmed); [exact H|].
  destruct (is_id (activeProjectId s) id) eqn:E.
  - unfold consistent, selectedNote, activeProject. simpl.
    destruct (filter (fun p => negb (jsstring_eqb (p_id p) id)) (projects s))
      as [|p ps]; simpl; [now split; left|].
    rewrite jsstring_eqb_refl. split; [right; now eexists|].
    destruct (notes p) as [|n l]; simpl; [now left|].
    right. rewrite jsstring_eqb_refl. now eexists.
  - revert H. unfold consistent, selectedNote, activeProject. simpl.
    rewrite find_filter; [tauto|].
    intros x Hx. apply is_id_eq in Hx. rewrite Hx in E. simpl in E.
    now rewrite E.
Qed.

Lemma consistent_note (rt : Runtime) (id : jsstring) (s : State) :
  existsb (fun n => jsstring_eqb (n_id n) id) (fst (filteredNotes rt s)) = true ->
  consistent s -> consistent (setSelectedNoteId (Some id) s).
Proof.
  intros H (HA & _).
  assert (Hn : exists n, In n (activeNotes s) /\ n_id n = id).
  { apply existsb_exists in H. destruct H as (n & Hn & E).
    apply jsstring_eqb_eq in E. exists n. split; [|exact E].
    unfold filteredNotes in Hn.
    destruct (negb (truthy (trim (query s)))); simpl in Hn;
      apply -> sortNotes_In in Hn; [exact Hn|].
    now apply filter_In in Hn. }
  destruct Hn as (n & Hn & E). revert Hn.
  unfold consistent, selectedNote, activeNotes, activeProject. simpl.
  destruct (find (fun p => is_id (activeProjectId s) (p_id p)) (projects s))
    as [p|]; [|contradiction].
  intros Hn. split; [right; now eexists|right].
  apply find_found. exists n. split; [exact Hn|].
  rewrite E. apply jsstring_eqb_refl.
Qed.

Lemma find_saveInto (now : Z) (uid : nat -> jsstring) (d : Draft)
      (a : option jsstring) (active : Project) (k : nat) (ps : list Project) :
  find (fun p => is_id a (p_id p)) ps = Some active ->
  find (fun p => is_id a (p_id p)) (saveInto now uid d (p_id active) k ps)
  = Some {| p_id := p_id active; p_name := p_name active;
            notes := savedNotes now (uid k) d (notes active) |}.
Proof.
  intros H. assert (Ha : a = Some (p_id active)).
  { apply find_some in H. now apply is_id_eq. }
  subst a. revert H. induction ps as [|p ps IH]; simpl; [discriminate|].
  destruct (jsstring_eqb (p_id active) (p_id p)) eqn:E.
  - intros [= ->]. rewrite jsstring_eqb_refl. simpl.
    now rewrite jsstring_eqb_refl.
  - intros H. assert (E' : jsstring_eqb (p_id p) (p_id active) = false).
    { apply jsstring_eqb_neq. apply jsstring_eqb_neq in E. congruence. }
    rewrite E'. simpl. rewrite E. now apply IH.
Qed.

Lemma projects_saveNote (now : Z) (uid : nat -> jsstring) (s : State) :
  projects (fst (saveNote now uid s)) = projects s \/
  exists active,
    activeProject s = Some active /\
    truthy (trim (d_title (draft s))) = true /\
    fst (saveNote now uid s)
    = setNoteDialogOpen false
        (setProjects
           (saveInto now uid (draft s) (p_id active) 0 (projects s)) s).
Proof.
  unfold saveNote. destruct (activeProject s) as [active|]; [|now left].
  destruct (truthy (trim (d_title (draft s)))); simpl; [|now left].
  right. now exists active.
Qed.

Lemma consistent_save (now : Z) (uid : nat -> jsstring) (s : State) :
  consistent s -> consistent (fst (saveNote now uid s)).
Proof.
  intros H. unfold saveNote.
  destruct (activeProject s) as [active|] eqn:A; [|exact H].
  destruct (negb (truthy (trim (d_title (draft s))))); [exact H|].
  revert H. unfold consistent, selectedNote. rewrite A.
  unfold activeProject in *. simpl.
  rewrite (find_saveInto _ _ _ _ _ _ _ A). simpl.
  intros (_ & HB). split; [right; now eexists|].
  destruct HB as [HB|HB]; [now left|right].
  apply find_found. apply find_found in HB. destruct HB as (n & Hn & Hf).
  unfold savedNotes. destruct (has_id (draft s)).
  - exists (if is_id (d_id (draft s)) (n_id n)
            then {| n_id := n_id n; n_title := trim (d_title (draft s));
                    n_content := d_content (draft s); updatedAt := now |}
            else n).
    split; [|now destruct (is_id (d_id (draft s)) (n_id n))].
    apply in_map_iff. now exists n.
  - exists n. split; [now right|exact Hf].
Qed.

Lemma consistent_deleteNote (confirmed : bool) (id : jsstring) (s : State) :
  consistent s -> consistent (deleteNote confirmed id s).
Proof.
  intros H. unfold deleteNote.
  destruct (activeProject s) as [active|] eqn:A; [|exact H].
  destruct (negb confirmed); [exact H|].
  assert (F : find (fun p => is_id (activeProjectId s) (p_id p))
                (map (fun p =>
                        if jsstring_eqb (p_id p) (p_id active)
                        then {| p_id := p_id p; p_name := p_name p;
                                notes := filter
                                  (fun n => negb (jsstring_eqb (n_id n) id))
                                  (notes p) |}
                        else p) (projects s))
              = Some {| p_id := p_id active; p_name := p_name active;
                        notes := filter
                                   (fun n => negb (jsstring_eqb (n_id n) id))
                                   (notes active) |}).
  { rewrite find_map_same
      by (intros x; now destruct (jsstring_eqb (p_id x) (p_id active))).
    unfold activeProject in A. rewrite A. simpl.
    now rewrite jsstring_eqb_refl. }
  destruct H as (_ & HB). unfold selectedNote in HB. rewrite A in HB.
  destruct (is_id (selectedNoteId s) id) eqn:E;
    unfold consistent, selectedNote, activeProject; simpl; rewrite F; simpl.
  - split; [right; now eexists|now left].
  - split; [right; now eexists|].
    destruct HB as [HB|HB]; [now left|right].
    apply find_found. apply find_found in HB. destruct HB as (n & Hn & Hf).
    exists n. split; [|exact Hf]. apply filter_In. split; [exact Hn|].
    apply is_id_eq in Hf. rewrite Hf in E. simpl in E. now rewrite E.
Qed.

Lemma consistent_step (rt : Runtime) (a : Action) (s s' : State) :
  consistent s -> step rt a s = Some s' -> consistent s'.
Proof.
  intros H. destruct a; simpl.
  - intros [= <-]. now apply consistent_render.
  - intros [= <-]. exact H.
  - destruct (find (fun p => jsstring_eqb (p_id p) id) (projects s))
      as [p|] eqn:F; [|discriminate].
    intros [= <-]. now apply (consistent_tab s id).
  - intros [= <-]. apply consistent_add.
  - destruct (activeProject s); [|discriminate]. intros [= <-]. exact H.
  - intros [= <-]. exact H.
  - destruct (renameProjectId s) as [id|]; [|discriminate].
    destruct (truthy id); [|discriminate].
    destruct (find (fun p => jsstring_eqb (p_id p) id) (projects s))
      as [p|]; [|discriminate].
    intros [= <-].
    apply (consistent_rename (p_id p)
             (if truthy (trim (projectNameDraft s))
              then trim (projectNameDraft s) else p_name p)) in H.
    exact H.
  - intros [= <-]. exact H.
  - destruct (activeProject s) as [p|]; [|discriminate].
    intros [= <-]. now apply consistent_deleteProject.
  - intros [= <-]. exact H.
  - destruct (existsb (fun n => jsstring_eqb (n_id n) id)
                (fst (filteredNotes rt s))) eqn:E; [|discriminate].
    intros [= <-]. now apply (consistent_note rt).
  - destruct (selectedNote s); [|discriminate]. intros [= <-]. exact H.
  - destruct (selectedNote s) as [n|]; [|discriminate].
    intros [= <-]. now apply consistent_deleteNote.
  - intros [= <-]. exact H.
  - intros [= <-]. exact H.
  - intros [= <-]. exact H.
  - intros [= <-]. now apply consistent_save.
Qed.

Lemma Forall2_saveInto (now : Z) (uid : nat -> jsstring) (d : Draft)
      (active : jsstring) (k : nat) (ps : list Project) :
  Forall2 (fun p p' =>
             p_id p' = p_id p /\ p_name p' = p_name p /\
             (map n_id (notes p') = map n_id (notes p) \/
              exists fresh,
                map n_id (notes p') = fresh :: map n_id (notes p)))
          ps (saveInto now uid d active k ps).
Proof.
  revert k. induction ps as [|p ps IH]; intros k; simpl; [constructor|].
  destruct (negb (jsstring_eqb (p_id p) active)); constructor; auto.
  simpl. repeat split. unfold savedNotes. destruct (has_id d).
  - left. rewrite map_map. apply map_ext. intros n.
    now destruct (is_id (d_id d) (n_id n)).
  - right. now eexists.
Qed.

Lemma named_Forall2 (Q : Project -> Project -> Prop) (ps ps' : list Project) :
  (forall p p', Q p p' -> p_name p' = p_name p) ->
  Forall2 Q ps ps' -> named ps -> named ps'.
Proof.
  intros HQ R. unfold named. induction R as [|p p' l l' Hp _ IH]; intros H.
  - constructor.
  - inversion H; subst. constructor; [|now apply IH].
    now rewrite (HQ _ _ Hp).
Qed.

Lemma named_step (rt : Runtime) (a : Action) (s s' : State) :
  named (projects s) -> step rt a s = Some s' -> named (projects s').
Proof.
  intros H.
  assert (M : forall g : Project -> Project,
             (forall p, p_name (g p) = p_name p) ->
             named (map g (projects s))).
  { intros g Hg. unfold named in *. rewrite Forall_forall in *. intros x Hx.
    apply in_map_iff in Hx. destruct Hx as (y & <- & Hy).
    rewrite Hg. now apply H. }
  assert (F : forall g : Project -> bool, named (filter g (projects s))).
  { intros g. unfold named in *. rewrite Forall_forall in *. intros x Hx.
    apply filter_In in Hx. now apply H. }
  destruct a; simpl.
  - intros [= <-]. simpl. unfold filteredNotes.
    destruct (negb (truthy (trim (query s)))); simpl; [|exact H].
    refine (named_Forall2 _ _ _ _
              (sortActive_same (activeProjectId s) (projects s)) H).
    now intros p p' (_ & E & _).
  - intros [= <-]. exact H.
  - destruct (find (fun p => jsstring_eqb (p_id p) id) (projects s));
      [|discriminate]. intros [= <-]. exact H.
  - intros [= <-]. simpl. constructor; [reflexivity|exact H].
  - destruct (activeProject s); [|discriminate]. intros [= <-]. exact H.
  - intros [= <-]. exact H.
  - destruct (renameProjectId s) as [id|]; [|discriminate].
    destruct (truthy id); [|discriminate].
    destruct (find (fun p => jsstring_eqb (p_id p) id) (projects s))
      as [p|] eqn:E; [|discriminate].
    intros [= <-]. simpl. apply find_some in E. destruct E as (Hp & _).
    unfold named in *. rewrite Forall_forall in *. intros x Hx.
    apply in_map_iff in Hx. destruct Hx as (y & <- & Hy).
    destruct (jsstring_eqb (p_id y) (p_id p)); [simpl|now apply H].
    destruct (truthy (trim (projectNameDraft s))) eqn:T; [exact T|].
    now apply H.
  - intros [= <-]. exact H.
  - destruct (activeProject s) as [p|]; [|discriminate].
    intros [= <-]. unfold deleteProject.
    destruct (negb confirmed); [exact H|].
    destruct (is_id (activeProjectId s) (p_id p)); simpl; apply F.
  - intros [= <-]. exact H.
  - destruct (existsb (fun n => jsstring_eqb (n_id n) id)
                (fst (filteredNotes rt s))); [|discriminate].
    intros [= <-]. exact H.
  - destruct (selectedNote s); [|discriminate]. intros [= <-]. exact H.
  - destruct (selectedNote s) as [n|]; [|discriminate].
    intros [= <-]. unfold deleteNote.
    destruct (activeProject s) as [active|]; [|exact H].
    destruct (negb confirmed); [exact H|].
    destruct (is_id (selectedNoteId s) (n_id n)); simpl; apply M;
      intros q; now destruct (jsstring_eqb (p_id q) (p_id active)).
  - intros [= <-]. exact H.
  - intros [= <-]. exact H.
  - intros [= <-]. exact H.
  - intros [= <-]. unfold saveNote.
    destruct (activeProject s) as [active|]; [|exact H].
    destruct (negb (truthy (trim (d_title (draft s))))); [exact H|].
    simpl.
    refine (named_Forall2 _ _ _ _
              (Forall2_saveInto now uid (draft s) (p_id active) 0
                 (projects s)) H).
    now intros p p' (_ & E & _).
Qed.

Lemma named_seed (uid : nat -> jsstring) (now : nat -> Z) :
  named (seed uid now).
Proof. repeat constructor. Qed.

Lemma filter_all_true {A} (f : A -> bool) (l : list A) :
  (forall x, f x = true) -> filter f l = l.
Proof.
  intros H. induction l as [|x l IH]; simpl; [reflexivity|].
  now rewrite H, IH.
Qed.

(** X17.  From the state that the component loads, whatever the stored list
    or the seed, every sequence of controls leads to a state whose active
    project, when one is named, is one of the projects, and whose selected
    note, when one is named, is a note of that project. *)
Theorem selection_never_dangles
        (rt : Runtime) (stored : option (list Project)) (sd : list Project)
        (s : State) :
  reachable rt (load stored sd) s -> consistent s.
Proof.
  induction 1 as [|a s s' _ IH Hstep].
  - apply consistent_load.
  - exact (consistent_step rt a s s' IH Hstep).
Qed.

(** X18.  When no stored project has the empty name, no project ever has it:
    a new project is named, and a rename to a blank name keeps the name that
    the project had. *)
Theorem project_names_never_empty
        (rt : Runtime) (stored : option (list Project))
        (uid : nat -> jsstring) (now : nat -> Z) (s : State) :
  (forall ps, stored = Some ps -> named ps) ->
  reachable rt (load stored (seed uid now)) s -> named (projects s).
Proof.
  intros Hs. induction 1 as [|a s s' _ IH Hstep].
  - unfold load. simpl. destruct stored as [ps|]; [now apply Hs|].
    apply named_seed.
  - exact (named_step rt a s s' IH Hstep).
Qed.

(** X19.  The side bar lists the notes of the active project that contain
    the query in lower case in their title or content in lower case, all of
    them when the query is blank: latest first, each once, and the notes of
    one time in the order that they have in the project. *)
Theorem side_bar_latest_first (rt : Runtime) (s : State) :
  let shown := fst (filteredNotes rt s) in
  let wanted :=
    filter (fun n => negb (truthy (trim (query s)))
                     || matches rt (toLowerCase rt (query s)) n)
           (activeNotes s) in
  latest_first shown /\ Permutation wanted shown /\
  forall t, at_time t shown = at_time t wanted.
Proof.
  unfold filteredNotes. destruct (truthy (trim (query s))); simpl.
  - repeat split.
    + apply sortNotes_sorted.
    + apply sortNotes_perm.
    + intros t. apply sortNotes_at_time.
  - rewrite filter_all_true by reflexivity. repeat split.
    + apply sortNotes_sorted.
    + apply sortNotes_perm.
    + intros t. apply sortNotes_at_time.
Qed.

(** X20.  The call leaves every project its identifier, its name and its
    notes, up to their order; with a blank query the notes of the active
    project are stored in the order of the side bar afterwards, since it is
    their array that is sorted. *)
Theorem render_sorts_stored_notes (rt : Runtime) (s : State) :
  let after := setProjects (snd (filteredNotes rt s)) s in
  Forall2 (fun p p' => p_id p' = p_id p /\ p_name p' = p_name p /\
                       Permutation (notes p) (notes p'))
          (projects s) (projects after) /\
  activeNotes after
  = if truthy (trim (query s)) then activeNotes s
    else fst (filteredNotes rt s).
Proof.
  unfold filteredNotes. destruct (truthy (trim (query s))); simpl.
  - split; [|now destruct s].
    induction (projects s); constructor; auto.
  - split; [apply sortActive_same|].
    unfold activeNotes, activeProject. simpl. rewrite find_sortActive.
    now destruct (find (fun p => is_id (activeProjectId s) (p_id p))
                       (projects s)).
Qed.

(** X21.  A note saved with a title that is not blank, at a time later than
    the times of the notes of the active project, is the first of the side
    bar when the query is blank: with the trimmed title, the content of the
    draft and the time of the save. For an update the identifier of the
    draft has to be the one of a note of the project. *)
Theorem saved_note_is_listed_first
        (rt : Runtime) (now : Z) (uid : nat -> jsstring)
        (s : State) (p : Project) :
  activeProject s = Some p ->
  truthy (trim (d_title (draft s))) = true ->
  truthy (trim (query s)) = false ->
  (forall n, In n (notes p) -> (updatedAt n < now)%Z) ->
  (has_id (draft s) = true ->
   exists n, In n (notes p) /\ is_id (d_id (draft s)) (n_id n) = true) ->
  exists id rest,
    fst (filteredNotes rt (fst (saveNote now uid s)))
    = {| n_id := id; n_title := trim (d_title (draft s));
         n_content := d_content (draft s); updatedAt := now |} :: rest.
Proof.
  intros A T Q L U. unfold saveNote. rewrite A, T. simpl.
  unfold filteredNotes. simpl. rewrite Q. simpl.
  unfold activeNotes, activeProject. simpl.
  unfold activeProject in A. rewrite (find_saveInto _ _ _ _ _ _ _ A). simpl.
  set (d := draft s) in *. set (l' := savedNotes now (uid 0%nat) d (notes p)).
  assert (Hnew : exists x, In x l' /\ updatedAt x = now).
  { unfold l', savedNotes. destruct (has_id d) eqn:Hd.
    - destruct (U eq_refl) as (n & Hn & Hid).
      eexists. split; [apply in_map_iff; exists n; split;
                       [reflexivity|exact Hn]|].
      now rewrite Hid.
    - eexists. split; [now left|reflexivity]. }
  assert (Hall : forall x, In x l' ->
                 (updatedAt x < now)%Z \/
                 exists id, x = {| n_id := id; n_title := trim (d_title d);
                                   n_content := d_content d;
                                   updatedAt := now |}).
  { unfold l', savedNotes. intros x Hx. destruct (has_id d).
    - apply in_map_iff in Hx. destruct Hx as (n & <- & Hn).
      destruct (is_id (d_id d) (n_id n)); [right; now eexists|].
      left. now apply L.
    - destruct Hx as [<-|Hx]; [right; now eexists|left; now apply L]. }
  destruct Hnew as (x & Hx & Ex).
  destruct (sortNotes_head l' x Hx) as (h & rest & E & Hh & Le).
  destruct (Hall h Hh) as [Lt|(id & ->)]; [lia|].
  now exists id, rest.
Qed.

(** X22.  Saving keeps the projects, their identifiers and their names, and
    the identifiers of the notes of every project in their order, but for
    one identifier that comes in front where a note is created. *)
Theorem saveNote_keeps_notes
        (now : Z) (uid : nat -> jsstring) (s : State) :
  Forall2 (fun p p' =>
             p_id p' = p_id p /\ p_name p' = p_name p /\
             (map n_id (notes p') = map n_id (notes p) \/
              exists fresh,
                map n_id (notes p') = fresh :: map n_id (notes p)))
          (projects s) (projects (fst (saveNote now uid s))).
Proof.
  assert (R : forall l : list Project,
             Forall2 (fun p p' =>
               p_id p' = p_id p /\ p_name p' = p_name p /\
               (map n_id (notes p') = map n_id (notes p) \/
                exists fresh,
                  map n_id (notes p') = fresh :: map n_id (notes p))) l l).
  { induction l; constructor; auto. }
  unfold saveNote. destruct (activeProject s) as [active|]; [|apply R].
  destruct (negb (truthy (trim (d_title (draft s))))); [apply R|].
  simpl. apply Forall2_saveInto.
Qed.

(** X23.  After a confirmed deletion the active project has no note with the
    identifier, and the note shown, if there is one, has another identifier. *)
Theorem deleted_note_is_gone (id : jsstring) (s : State) :
  let after := deleteNote true id s in
  existsb (fun n => jsstring_eqb (n_id n) id) (activeNotes after) = false /\
  match selectedNote after with
  | Some n => jsstring_eqb (n_id n) id = false
  | None => True
  end.
Proof.
  cbv zeta.
  assert (G : existsb (fun n => jsstring_eqb (n_id n) id)
                (activeNotes (deleteNote true id s)) = false).
  { unfold deleteNote. destruct (activeProject s) as [active|] eqn:A; simpl.
    - assert (F : forall s1,
                 projects s1
                 = map (fun p =>
                          if jsstring_eqb (p_id p) (p_id active)
                          then {| p_id := p_id p; p_name := p_name p;
                                  notes := filter
                                    (fun n => negb (jsstring_eqb (n_id n) id))
                                    (notes p) |}
                          else p) (projects s) ->
                 activeProjectId s1 = activeProjectId s ->
                 activeNotes s1
                 = filter (fun n => negb (jsstring_eqb (n_id n) id))
                          (notes active)).
      { intros s1 E1 E2. unfold activeNotes, activeProject. rewrite E1, E2.
        rewrite find_map_same
          by (intros x; now destruct (jsstring_eqb (p_id x) (p_id active))).
        unfold activeProject in A. rewrite A. simpl.
        now rewrite jsstring_eqb_refl. }
      assert (E : forall l : list Note,
                 existsb (fun n => jsstring_eqb (n_id n) id)
                   (filter (fun n => negb (jsstring_eqb (n_id n) id)) l)
                 = false).
      { induction l as [|n l IH]; simpl; [reflexivity|].
        destruct (jsstring_eqb (n_id n) id) eqn:En; simpl; [exact IH|].
        now rewrite En. }
      destruct (is_id (selectedNoteId s) id);
        (rewrite F; [apply E|reflexivity|reflexivity]).
    - unfold activeNotes. now rewrite A. }
  split; [exact G|].
  unfold selectedNote. unfold activeNotes in G.
  destruct (activeProject (deleteNote true id s)) as [p|]; [|exact I].
  destruct (find (fun n => is_id (selectedNoteId (deleteNote true id s))
                                 (n_id n)) (notes p)) as [n|] eqn:E;
    [|exact I].
  apply find_some in E. destruct E as (Hin & _).
  destruct (jsstring_eqb (n_id n) id) eqn:En; [|reflexivity].
  rewrite <- G. symmetry. apply existsb_exists. now exists n.
Qed.

Lemma run_reachable (rt : Runtime) (l : list Action) (s0 s s' : State) :
  reachable rt s0 s -> run rt l s = Some s' -> reachable rt s0 s'.
Proof.
  revert s. induction l as [|a l IH]; simpl; intros s R.
  - now intros [= <-].
  - destruct (step rt a s) as [s1|] eqn:E; [|discriminate].
    apply IH. exact (reach_step rt s0 a s s1 R E).
Qed.

Lemma selection_never_dangles_witness : consistent Desk.finished.
Proof.
  apply (selection_never_dangles Scenario.rt_offline (Some Desk.stored)
           (seed Desk.uid Desk.clock)).
  apply (run_reachable Scenario.rt_offline Desk.session Desk.start Desk.start);
    [apply reach_start|vm_compute; reflexivity].
Defined.

Lemma project_names_never_empty_witness : named (projects Desk.finished).
Proof.
  apply (project_names_never_empty Scenario.rt_offline (Some Desk.stored)
           Desk.uid Desk.clock).
  - intros ps [= <-]. repeat constructor.
  - apply (run_reachable Scenario.rt_offline Desk.session Desk.start Desk.start);
      [apply reach_start|vm_compute; reflexivity].
Defined.

Lemma saved_note_is_listed_first_witness :
  exists id rest,
    fst (filteredNotes Scenario.rt_offline
           (fst (saveNote 100 Desk.uid Desk.editing)))
    = {| n_id := id; n_title := trim (d_title (draft Desk.editing));
         n_content := d_content (draft Desk.editing);
         updatedAt := 100%Z |} :: rest.
Proof.
  apply (saved_note_is_listed_first Scenario.rt_offline 100 Desk.uid
           Desk.editing Desk.inbox).
  - vm_compute; reflexivity.
  - vm_compute; reflexivity.
  - vm_compute; reflexivity.
  - intros n [<-|[<-|[<-|[]]]]; vm_compute; reflexivity.
  - intros _. exists Desk.log. split; [|vm_compute; reflexivity].
    right; right; left; reflexivity.
Defined.

End WorkspaceFacts.

(* ================================================================= *)
(** ** The visible text *)

Lemma RE_TAG_eq :
  RE_TAG = [One (lit 60); One (non 62); Star (non 62); One (lit 62)].
Proof. reflexivity. Qed.

Lemma RE_SPACES_eq : RE_SPACES = [One is_space; Star is_space].
Proof. reflexivity. Qed.

Lemma match_len_none (pat : pattern) (s : jsstring) :
  match_len pat s = None <-> exec_at pat s = None.
Proof. unfold match_len. destruct (exec_at pat s); simpl; split; congruence. Qed.

(** *** [/<[^>]+>/] *)

Lemma tag_needs_lt (c : N) (s : jsstring) :
  c <> 60 -> match_len RE_TAG (c :: s) = None.
Proof.
  intros H. unfold match_len, exec_at. rewrite RE_TAG_eq. cbn [run].
  unfold lit at 1. apply N.eqb_neq in H. now rewrite H.
Qed.

Lemma star_until_gt (k : nat -> jsstring -> option result) (r : jsstring) :
  (forall n c r', (c =? 62) = false -> k n (c :: r') = None) ->
  (forall n, k n [] = None) ->
  forall n, free_of_sep 62 r = true -> star (non 62) k n r = None.
Proof.
  intros K1 K2. induction r as [|c r IH]; intros n H; [apply K2|].
  unfold free_of_sep in H. simpl in H. apply andb_true_iff in H as [Hc Hr].
  cbn [star]. unfold non at 1. rewrite Hc.
  rewrite (IH (S n) Hr). apply K1. now apply negb_true_iff in Hc.
Qed.

Lemma gt_next_cons (d : N) (s : jsstring) : gt_next (d :: s) = (d =? 62).
Proof. reflexivity. Qed.

Lemma free_of_sep_cons (sep d : N) (s : jsstring) :
  free_of_sep sep (d :: s) = negb (d =? sep) && free_of_sep sep s.
Proof. reflexivity. Qed.

Lemma tag_no_match (s : jsstring) :
  gt_next s || free_of_sep 62 s = true -> match_len RE_TAG (60 :: s) = None.
Proof.
  intros H. unfold match_len, exec_at. rewrite RE_TAG_eq. cbn [run].
  change (lit 60 60) with true. cbv iota.
  destruct s as [|d s]; [reflexivity|].
  rewrite gt_next_cons, free_of_sep_cons in H.
  unfold non at 1. destruct (d =? 62) eqn:E; [reflexivity|].
  cbn [negb orb andb] in H. cbn [negb]. cbv iota.
  rewrite star_until_gt; [reflexivity| | |exact H].
  - intros n c r' Hc. unfold lit. now rewrite Hc.
  - reflexivity.
Qed.

Lemma first_gt (s : jsstring) :
  free_of_sep 62 s = false ->
  exists w r, s = w ++ 62 :: r /\ forallb (non 62) w = true.
Proof.
  unfold free_of_sep. induction s as [|c s IH]; simpl; [discriminate|].
  destruct (c =? 62) eqn:E; simpl.
  - intros _. apply N.eqb_eq in E. subst c. now exists [], s.
  - intros H. destruct (IH H) as (w & r & -> & Hw).
    exists (c :: w), r. split; [reflexivity|]. simpl. unfold non at 1.
    now rewrite E.
Qed.

Lemma tag_match (s : jsstring) :
  gt_next s || free_of_sep 62 s = false ->
  exists n, match_len RE_TAG (60 :: s) = Some (S n).
Proof.
  intros H. apply orb_false_iff in H as [Hg Hf].
  destruct s as [|d s]; [discriminate Hf|].
  rewrite gt_next_cons in Hg. rewrite free_of_sep_cons, Hg in Hf.
  cbn [negb andb] in Hf.
  destruct (first_gt s Hf) as (w & r & -> & Hw).
  exists (2 + length w)%nat.
  unfold match_len, exec_at. rewrite RE_TAG_eq. cbn [run].
  change (lit 60 60) with true. cbv iota. unfold non at 1. rewrite Hg.
  cbn [negb]. cbv iota.
  rewrite (star_app _ _ w (62 :: r) 2 (S (2 + length w), None) Hw);
    [reflexivity|].
  rewrite star_stop by reflexivity. reflexivity.
Qed.

Lemma tagless_search (s : jsstring) :
  tagless s = true -> search RE_TAG s = None.
Proof.
  induction s as [|c s IH]; intros H.
  - reflexivity.
  - simpl in H. apply andb_true_iff in H as [Hc Hs].
    change (ch "<") with 60 in Hc. change (ch ">") with 62 in Hc.
    assert (E : exec_at RE_TAG (c :: s) = None).
    { apply match_len_none. destruct (c =? 60) eqn:Ec.
      - apply N.eqb_eq in Ec. subst c. apply tag_no_match.
        now rewrite <- orb_assoc in Hc.
      - apply tag_needs_lt. now apply N.eqb_neq. }
    cbn [search]. rewrite E. now apply IH.
Qed.

Lemma tagless_suffix (a b : jsstring) : tagless (a ++ b) = true -> tagless b = true.
Proof.
  induction a as [|c a IH]; [trivial|]. simpl. intros H.
  apply andb_true_iff in H as [_ H]. now apply IH.
Qed.

Lemma free_of_sep_app (sep : N) (a b : jsstring) :
  free_of_sep sep (a ++ b) = free_of_sep sep a && free_of_sep sep b.
Proof. unfold free_of_sep. apply forallb_app. Qed.

Lemma tagless_prefix (a b : jsstring) : tagless (a ++ b) = true -> tagless a = true.
Proof.
  induction a as [|c a IH]; [reflexivity|]. simpl. intros H.
  apply andb_true_iff in H as [Hc H]. rewrite (IH H), andb_true_r.
  destruct (negb (c =? ch "<")); [reflexivity|]. simpl in *.
  destruct a as [|d a]; [reflexivity|]. simpl in *.
  destruct (d =? ch ">"); [reflexivity|]. simpl in *.
  rewrite free_of_sep_app in Hc. now apply andb_true_iff in Hc as [-> _].
Qed.

Lemma trim_infix (s : jsstring) : exists a b, s = a ++ trim s ++ b.
Proof.
  unfold trim, trimEnd. destruct (trimStart_suffix s) as (a & Ea).
  destruct (trimStart_suffix (rev (trimStart s))) as (b & Eb).
  exists a, (rev b). rewrite <- rev_app_distr, <- Eb, rev_involutive.
  exact Ea.
Qed.

Section Copying.
Variable pat : pattern.
Hypothesis not_at_gt : forall s, match_len pat (62 :: s) = None.

Variable f : jsstring -> jsstring.
Hypothesis f_space : forall w, f w = [32].

Lemma replace_keeps_gt (s : jsstring) :
  gt_next s = true -> gt_next (replace_go pat f 0 s) = true.
Proof.
  destruct s as [|c s]; [discriminate|]. simpl. change (ch ">") with 62.
  intros E. apply N.eqb_eq in E. subst c. now rewrite not_at_gt.
Qed.

Lemma replace_adds_no_gt (s : jsstring) : forall skip,
  free_of_sep 62 s = true -> free_of_sep 62 (replace_go pat f skip s) = true.
Proof.
  induction s as [|c s IH]; intros skip H.
  - simpl. destruct skip; [|reflexivity].
    destruct (match_len pat []); [now rewrite f_space|reflexivity].
  - unfold free_of_sep in H. simpl in H. apply andb_true_iff in H as [Hc Hs].
    cbn [replace_go]. destruct skip as [|k]; [|now apply IH].
    destruct (match_len pat (c :: s)) as [[|n]|].
    + rewrite (f_space []). cbn [app]. unfold free_of_sep. simpl.
      rewrite Hc. simpl. now apply IH.
    + rewrite (f_space (firstn (S n) (c :: s))). cbn [app].
      unfold free_of_sep. simpl. now apply IH.
    + unfold free_of_sep. simpl. rewrite Hc. simpl. now apply IH.
Qed.

Lemma replace_tagless (s : jsstring) : forall skip,
  (forall a b, s = a ++ 60 :: b ->
     (exists n, match_len pat (60 :: b) = Some (S n)) \/
     gt_next b || free_of_sep 62 b = true) ->
  tagless (replace_go pat f skip s) = true.
Proof.
  induction s as [|c s IH]; intros skip H.
  - simpl. destruct skip; [|reflexivity].
    destruct (match_len pat []); [now rewrite f_space|reflexivity].
  - assert (Hs : forall a b, s = a ++ 60 :: b ->
              (exists n, match_len pat (60 :: b) = Some (S n)) \/
              gt_next b || free_of_sep 62 b = true).
    { intros a b E. apply (H (c :: a) b). now rewrite E. }
    cbn [replace_go]. destruct skip as [|k]; [|now apply IH].
    assert (Hc : (forall n, match_len pat (c :: s) <> Some (S n)) ->
              negb (c =? ch "<") || gt_next (replace_go pat f 0 s)
              || free_of_sep (ch ">") (replace_go pat f 0 s) = true).
    { intros Hn. change (ch "<") with 60. change (ch ">") with 62.
      destruct (c =? 60) eqn:Ec; [|reflexivity]. simpl.
      apply N.eqb_eq in Ec. subst c.
      destruct (H [] s eq_refl) as [(n & E)|E]; [now elim (Hn n)|].
      apply orb_true_iff in E as [E|E].
      - now rewrite replace_keeps_gt.
      - rewrite replace_adds_no_gt by exact E. apply orb_true_r. }
    destruct (match_len pat (c :: s)) as [[|n]|] eqn:E.
    + rewrite (f_space []). cbn [app tagless].
      rewrite Hc by (intros m; discriminate). now rewrite IH.
    + rewrite (f_space (firstn (S n) (c :: s))). cbn [app tagless].
      now rewrite IH.
    + cbn [tagless]. rewrite Hc by (intros m; discriminate).
      now rewrite IH.
Qed.
End Copying.

Lemma tagless_at (s a b : jsstring) :
  tagless s = true -> s = a ++ 60 :: b ->
  gt_next b || free_of_sep 62 b = true.
Proof.
  intros H ->. apply tagless_suffix in H. simpl in H.
  now apply andb_true_iff in H as [H _].
Qed.

Lemma spaces_not_at (c : N) (s : jsstring) :
  is_space c = false -> match_len RE_SPACES (c :: s) = None.
Proof.
  intros H. unfold match_len, exec_at. rewrite RE_SPACES_eq. cbn [run].
  now rewrite H.
Qed.

Lemma visibleText_tagless (html : jsstring) : tagless (visibleText html) = true.
Proof.
  unfold visibleText.
  set (t := replace_all RE_STYLE _ _).
  assert (T : tagless (replace_all RE_TAG (fun _ => js " ") t) = true).
  { apply replace_tagless.
    - intros s. now apply tag_needs_lt.
    - reflexivity.
    - intros a b _.
      destruct (gt_next b || free_of_sep 62 b) eqn:E; [now right|left].
      now apply tag_match. }
  set (u := replace_all RE_TAG _ t) in *.
  assert (U : tagless (replace_all RE_SPACES (fun _ => js " ") u) = true).
  { apply replace_tagless.
    - intros s. now apply spaces_not_at.
    - reflexivity.
    - intros a b E. right. exact (tagless_at u a b T E). }
  destruct (trim_infix (replace_all RE_SPACES (fun _ => js " ") u))
    as (a & b & E).
  rewrite E in U. apply tagless_suffix in U. now apply tagless_prefix in U.
Qed.

(** X24.  The text of the page before the entities are decoded contains no
    tag, whatever the page: the pattern of the tags has no match in it. *)
Theorem raw_text_has_no_tag (html : jsstring) :
  search RE_TAG (rawBodyText html) = None.
Proof.
  apply tagless_search. unfold rawBodyText, substring0.
  pose proof (visibleText_tagless html) as H.
  rewrite <- (firstn_skipn MAX_BODY (visibleText html)) in H.
  now apply tagless_prefix in H.
Qed.

(** *** [/\s+/] *)

Lemma star_spaces (k : nat -> jsstring -> option result) :
  (forall n s, k n s = Some (n, None)) ->
  forall (l : jsstring) n,
  exists w r, l = w ++ r /\ space_next r = false /\
              star is_space k n l = Some ((n + length w)%nat, None).
Proof.
  intros K. induction l as [|d l IH]; intros n.
  - exists [], []. simpl. now rewrite K, Nat.add_0_r.
  - cbn [star]. destruct (is_space d) eqn:Ed.
    + destruct (IH (S n)) as (w & r & -> & Hr & E).
      exists (d :: w), r. rewrite E. simpl.
      now rewrite Nat.add_succ_r.
    + exists [], (d :: l). simpl. now rewrite Ed, K, Nat.add_0_r.
Qed.

Lemma spaces_match (c : N) (s : jsstring) :
  is_space c = true ->
  exists w r, s = w ++ r /\ space_next r = false /\
              match_len RE_SPACES (c :: s) = Some (S (length w)).
Proof.
  intros H. unfold match_len, exec_at. rewrite RE_SPACES_eq. cbn [run].
  rewrite H.
  match goal with
  | |- context [star is_space ?k 1%nat s] =>
      destruct (star_spaces k (fun _ _ => eq_refl) s 1%nat)
        as (w & r & -> & Hr & E)
  end.
  exists w, r. rewrite E. now repeat split.
Qed.

Lemma collapse_single_spaced (n : nat) : forall s,
  (length s <= n)%nat ->
  single_spaced (replace_all RE_SPACES (fun _ => js " ") s) = true /\
  (space_next s = false ->
   space_next (replace_all RE_SPACES (fun _ => js " ") s) = false).
Proof.
  induction n as [|n IH]; intros s Hl.
  - destruct s; [|simpl in Hl; lia]. now split.
  - destruct s as [|c s]; [now split|]. simpl in Hl.
    destruct (is_space c) eqn:Ec.
    + destruct (spaces_match c s Ec) as (w & r & -> & Hr & E).
      assert (Lr : (length r <= n)%nat) by (rewrite length_app in Hl; lia).
      destruct (IH r Lr) as (S1 & S2). unfold replace_all in *.
      cbn [replace_go]. rewrite E, replace_go_skip.
      set (X := replace_go RE_SPACES _ 0 r) in *.
      split; [|simpl; congruence].
      change (single_spaced (32 :: X) = true).
      cbn [single_spaced]. change (is_space 32) with true. cbv iota.
      rewrite (S2 Hr), S1. reflexivity.
    + rewrite replace_all_no_match by now apply spaces_not_at.
      assert (Ls : (length s <= n)%nat) by lia.
      destruct (IH s Ls) as (S1 & _).
      split; [|intros _; simpl; exact Ec].
      cbn [single_spaced]. now rewrite Ec, S1.
Qed.

Lemma single_spaced_suffix (a b : jsstring) :
  single_spaced (a ++ b) = true -> single_spaced b = true.
Proof.
  induction a as [|c a IH]; [trivial|]. simpl. intros H.
  apply andb_true_iff in H as [_ H]. now apply IH.
Qed.

Lemma single_spaced_prefix (a b : jsstring) :
  single_spaced (a ++ b) = true -> single_spaced a = true.
Proof.
  induction a as [|c a IH]; [reflexivity|]. simpl. intros H.
  apply andb_true_iff in H as [Hc H]. rewrite (IH H), andb_true_r.
  destruct (is_space c); [|reflexivity].
  apply andb_true_iff in Hc as [-> Hc]. simpl.
  destruct a as [|d a]; [reflexivity|exact Hc].
Qed.

(** X25.  In the text of the page before the entities are decoded every
    white space character is a single U+0020 between two other characters or
    at the end: none is followed by white space, and the text does not begin
    with one. *)
Theorem raw_text_is_single_spaced (html : jsstring) :
  single_spaced (rawBodyText html) = true /\
  space_next (rawBodyText html) = false.
Proof.
  unfold rawBodyText, substring0, visibleText.
  set (u := replace_all RE_TAG _ _).
  destruct (collapse_single_spaced (length u) u (le_n _)) as (S1 & _).
  destruct (trim_infix (replace_all RE_SPACES (fun _ => js " ") u))
    as (a & b & E).
  set (t := trim _) in *.
  rewrite E in S1. apply single_spaced_suffix, single_spaced_prefix in S1.
  rewrite <- (firstn_skipn MAX_BODY t) in S1.
  split; [now apply single_spaced_prefix in S1|].
  assert (Ht : space_next t = false).
  { pose proof (trim_ends (replace_all RE_SPACES (fun _ => js " ") u))
      as (Hh & _). fold t in Hh.
    destruct t as [|c t']; [reflexivity|exact Hh]. }
  destruct t as [|c t']; [now destruct MAX_BODY|exact Ht].
Qed.
